(** * streamlit_app.py: the chat front-end of the multi-agent demo

    A shallow embedding of [src/streamlit_app.py].  The script is rerun from
    top to bottom on every user interaction; it mutates three pieces of
    state that outlive one rerun:

    - the slot of [@st.cache_resource] around [initialize_client_agent]
      (process-wide),
    - [st.session_state.messages] (the conversation log of the session),
    - [sys.stdout] (process-wide), which the turn handler redirects to a
      fresh [StringIO] while the agent runs.

    The collaborators the script only calls (the A2A tool provider, the
    Bedrock model, the strands agent, the chat input widget) are an
    environment [Env] that says what each call answers.  Every call and
    every widget the script renders is also recorded, in execution order,
    in the [effects] of the world. *)

From stdpp Require Import base list strings.


(** ** Exceptions and results *)

(** [except Exception as e] (line 47) catches the subclasses of [Exception]
    only; anything else deriving from [BaseException] passes through. *)
Inductive exn : Type :=
| Exception (detail : string)
| BaseException (detail : string).

(** [f"{e}"] *)
Definition str_exn (e : exn) : string :=
  match e with
  | Exception d => d
  | BaseException d => d
  end.

Inductive outcome (A : Type) : Type :=
| Returns (a : A)
| Raises (e : exn).
Arguments Returns {A} a.
Arguments Raises {A} e.

Definition returned {A} (o : outcome A) : bool :=
  match o with
  | Returns _ => true
  | Raises _ => false
  end.

(** ** Data *)

(** A discovered tool; the script reads [tool.__name__] only. *)
Record Tool : Type := { tool_name : string }.

Record A2AClientToolProvider : Type :=
  { known_agent_urls : list string;
    tools : list Tool }.

Record BedrockModel : Type := { model_id : string }.

Record Agent : Type :=
  { system_prompt : string;
    agent_tools : list Tool;
    model : BedrockModel }.

(** An entry of [st.session_state.messages]: [{"role": ..., "content": ...}]. *)
Record Message : Type :=
  { role : string;
    content : string }.

(** What the script does to the outside, in the order it does it. *)
Inductive Effect : Type :=
| SetPageConfig (page_title : string) (page_icon : string)
| StTitle (s : string)
| StCaption (s : string)
| LoggerInfo (s : string)
| NewProvider (urls : list string)
| NewBedrockModel (id : string)
| NewAgent (prompt : string) (ts : list Tool) (m : BedrockModel)
| CallAgent (a : Agent) (prompt : string)
| StError (s : string)
| StSuccess (s : string)
| StWarning (s : string)
| StChatInput (placeholder : string)
| ChatMarkdown (r : string) (s : string)
| StStatus (label : string)
| StatusMarkdown (s : string)
| StatusCode (s : string) (language : string)
| StatusUpdate (label : string) (state : string)
| MessagesAppend (m : Message).

(** ** The world *)

Record World : Type :=
  { cache_resource : option (option Agent);
    session_messages : option (list Message);
    sys_stdout : nat;
    streams : list string;
    effects : list Effect }.

(** [cache_resource]: the slot of the decorator; [None] before the first
    call that returned, [Some r] once a call returned [r] ([r = None] is
    Python's [None]).
    [session_messages]: [None] while ["messages" not in st.session_state].
    [streams]: the text of every stream object allocated so far; a stream
    is named by its index, and [sys_stdout] is the one [sys.stdout] is bound
    to. *)

Definition set_cache_resource (c : option (option Agent)) (w : World) : World :=
  {| cache_resource := c;
     session_messages := session_messages w;
     sys_stdout := sys_stdout w;
     streams := streams w;
     effects := effects w |}.

Definition set_session_messages (m : option (list Message)) (w : World) : World :=
  {| cache_resource := cache_resource w;
     session_messages := m;
     sys_stdout := sys_stdout w;
     streams := streams w;
     effects := effects w |}.

Definition set_sys_stdout (h : nat) (w : World) : World :=
  {| cache_resource := cache_resource w;
     session_messages := session_messages w;
     sys_stdout := h;
     streams := streams w;
     effects := effects w |}.

Definition set_streams (s : list string) (w : World) : World :=
  {| cache_resource := cache_resource w;
     session_messages := session_messages w;
     sys_stdout := sys_stdout w;
     streams := s;
     effects := effects w |}.

Definition set_effects (e : list Effect) (w : World) : World :=
  {| cache_resource := cache_resource w;
     session_messages := session_messages w;
     sys_stdout := sys_stdout w;
     streams := streams w;
     effects := e |}.

(** ** The environment *)

Record Env : Type :=
  { (* A2AClientToolProvider(known_agent_urls=urls): the tools it holds,
       or the exception the constructor raises *)
    provider_connect : list string -> outcome (list Tool);
    (* BedrockModel(model_id=id) *)
    bedrock_init : string -> option exn;
    (* Agent(system_prompt=, tools=, model=) *)
    agent_init : string -> list Tool -> BedrockModel -> option exn;
    (* agent(prompt): what it writes to sys.stdout, write by write, and how
       it ends *)
    agent_call : Agent -> string -> list string * outcome string;
    (* st.chat_input(placeholder) *)
    chat_input : string -> option string }.

(** ** A state and exception monad over the world *)

Definition M (A : Type) : Type := World -> outcome A * World.

Definition ret {A} (a : A) : M A := fun w => (Returns a, w).

Definition raise {A} (e : exn) : M A := fun w => (Raises e, w).

Definition bind {A B} (m : M A) (k : A -> M B) : M B :=
  fun w =>
    match m w with
    | (Returns a, w') => k a w'
    | (Raises e, w') => (Raises e, w')
    end.

Declare Scope script_scope.
Delimit Scope script_scope with script.
Notation "x <- m ;; k" := (bind m (fun x => k))
  (at level 100, m at next level, right associativity) : script_scope.
Notation "m ;; k" := (bind m (fun _ => k))
  (at level 100, right associativity) : script_scope.
Local Open Scope script_scope.

Definition emit (e : Effect) : M unit :=
  fun w => (Returns tt, set_effects (effects w ++ [e]) w).

Fixpoint for_each {A} (f : A -> M unit) (l : list A) : M unit :=
  match l with
  | [] => ret tt
  | x :: l' => f x ;; for_each f l'
  end.

(** ** Section 1 of the script: set-up *)

Definition SUPERVISOR_URL : string := "http://localhost:5000".

Definition page_setup : M unit :=
  emit (SetPageConfig "Multi-Agent System UI" "🤖") ;;
  emit (StTitle "🤖 Multi-Agent System Interface") ;;
  emit (StCaption "Interact with a supervisor agent that orchestrates specialized tasks.").

(** ** Section 2 of the script: [initialize_client_agent] *)

Definition client_model_id : string :=
  "eu.anthropic.claude-sonnet-4-20250514-v1:0".

(** The triple-quoted literal of lines 69-71, line breaks included. *)
Definition client_system_prompt : string :=
  "You are a command-line assistant. Your job is to
        analyze the user's instruction and execute the most appropriate tool.
        Use the tools available to you to find the supervisor agent and delegate the task to it.".

(** The three [st.error] lines of the [except] branch (lines 49-51). *)
Definition connection_error_report (e : exn) : list Effect :=
  [ StError ("Failed to connect to Supervisor Agent at " +:+ SUPERVISOR_URL +:+ ".");
    StError "Please ensure supervisor_agent.py is running.";
    StError ("Details: " +:+ str_exn e) ].

(** The two [st.error] lines of the empty-tools branch (lines 55-56). *)
Definition no_tools_report : list Effect :=
  [ StError ("No tools discovered from the agent at " +:+ SUPERVISOR_URL +:+ ".");
    StError "Ensure the Supervisor Agent has defined tools." ].

(** [not provider.tools]: an empty list is falsy. *)
Definition no_tools (p : A2AClientToolProvider) : bool :=
  match tools p with
  | [] => true
  | _ :: _ => false
  end.

(** Lines 46-47: the constructor call under [try], with its [except]. *)
Definition connect_provider (env : Env) : M (option A2AClientToolProvider) :=
  emit (NewProvider [SUPERVISOR_URL]) ;;
  match provider_connect env [SUPERVISOR_URL] with
  | Returns ts =>
      ret (Some {| known_agent_urls := [SUPERVISOR_URL]; tools := ts |})
  | Raises (Exception d) =>
      for_each emit (connection_error_report (Exception d)) ;;
      ret None
  | Raises (BaseException d) => raise (BaseException d)
  end.

(** Lines 64-66. *)
Definition new_bedrock_model (env : Env) (id : string) : M BedrockModel :=
  emit (NewBedrockModel id) ;;
  match bedrock_init env id with
  | Some e => raise e
  | None => ret {| model_id := id |}
  end.

(** Lines 68-74. *)
Definition new_agent (env : Env) (prompt : string) (ts : list Tool)
    (m : BedrockModel) : M Agent :=
  emit (NewAgent prompt ts m) ;;
  match agent_init env prompt ts m with
  | Some e => raise e
  | None => ret {| system_prompt := prompt; agent_tools := ts; model := m |}
  end.

(** The body of the function, lines 43-77. *)
Definition initialize_client_agent (env : Env) : M (option Agent) :=
  emit (LoggerInfo ("Attempting to discover agent at " +:+ SUPERVISOR_URL +:+ "...")) ;;
  found <- connect_provider env ;;
  match found with
  | None => ret None
  | Some provider =>
      if no_tools provider then
        for_each emit no_tools_report ;;
        ret None
      else
        emit (LoggerInfo "Successfully discovered the following capabilities:") ;;
        for_each (fun t => emit (LoggerInfo ("- " +:+ tool_name t))) (tools provider) ;;
        client_bedrock_model <- new_bedrock_model env client_model_id ;;
        client_agent <- new_agent env client_system_prompt (tools provider)
                          client_bedrock_model ;;
        emit (StSuccess "Successfully connected to the Supervisor Agent.") ;;
        ret (Some client_agent)
  end.

(** [@st.cache_resource] on a function without arguments: one slot.  A call
    that finds the slot filled returns its content; a call that finds it
    empty runs the body, and stores what the body returns.  A body that
    raises stores nothing. *)
Definition cached_initialize_client_agent (env : Env) : M (option Agent) :=
  fun w =>
    match cache_resource w with
    | Some r => (Returns r, w)
    | None =>
        match initialize_client_agent env w with
        | (Returns r, w') => (Returns r, set_cache_resource (Some r) w')
        | (Raises e, w') => (Raises e, w')
        end
    end.

(** ** Section 3 of the script: the page and the turn handler *)

(** Lines 86-87. *)
Definition init_messages : M unit :=
  fun w =>
    match session_messages w with
    | None => (Returns tt, set_session_messages (Some []) w)
    | Some _ => (Returns tt, w)
    end.

(** [st.session_state.messages]; an [AttributeError] while the key is
    missing. *)
Definition get_messages : M (list Message) :=
  fun w =>
    match session_messages w with
    | Some l => (Returns l, w)
    | None => (Raises (Exception "st.session_state has no attribute 'messages'"), w)
    end.

(** [st.session_state.messages.append(m)] *)
Definition messages_append (m : Message) : M unit :=
  l <- get_messages ;;
  emit (MessagesAppend m) ;;
  fun w => (Returns tt, set_session_messages (Some (l ++ [m])) w).

(** [sys.stdout] read and assigned. *)
Definition get_sys_stdout : M nat := fun w => (Returns (sys_stdout w), w).

Definition put_sys_stdout (h : nat) : M unit :=
  fun w => (Returns tt, set_sys_stdout h w).

(** [StringIO()]: a new, empty stream. *)
Definition new_StringIO : M nat :=
  fun w => (Returns (length (streams w)), set_streams (streams w ++ [""]) w).

(** [sys.stdout.write(s)]: the text goes to whatever [sys.stdout] is bound
    to at that moment. *)
Definition stdout_write (s : string) : M unit :=
  fun w =>
    (Returns tt, set_streams (alter (fun t => t +:+ s) (sys_stdout w) (streams w)) w).

(** [buffer.getvalue()] *)
Definition getvalue (h : nat) : M string :=
  fun w =>
    match streams w !! h with
    | Some t => (Returns t, w)
    | None => (Raises (Exception "I/O operation on closed file"), w)
    end.

(** Line 114, [client_agent(prompt)]. *)
Definition call_agent (env : Env) (agent : Agent) (prompt : string) : M string :=
  emit (CallAgent agent prompt) ;;
  for_each stdout_write (fst (agent_call env agent prompt)) ;;
  match snd (agent_call env agent prompt) with
  | Returns r => ret r
  | Raises e => raise e
  end.

(** Lines 99-130: one turn, for a prompt the user typed. *)
Definition handle_prompt (env : Env) (agent : Agent) (prompt : string) : M unit :=
  messages_append {| role := "user"; content := prompt |} ;;
  emit (ChatMarkdown "user" prompt) ;;
  emit (StStatus "Thinking and executing task...") ;;
  old_stdout <- get_sys_stdout ;;
  redirected_output <- new_StringIO ;;
  put_sys_stdout redirected_output ;;
  final_response <- call_agent env agent prompt ;;
  put_sys_stdout old_stdout ;;
  agent_thoughts <- getvalue redirected_output ;;
  emit (StatusMarkdown "#### Agent's Thought Process:") ;;
  emit (StatusCode agent_thoughts "log") ;;
  emit (StatusUpdate "Task Complete!" "complete") ;;
  emit (ChatMarkdown "assistant" final_response) ;;
  messages_append {| role := "assistant"; content := final_response |}.

(** Truth value of a Python [str]: the empty string is falsy. *)
Definition truthy (s : string) : bool :=
  match s with
  | EmptyString => false
  | String _ _ => true
  end.

Definition chat_placeholder : string :=
  "Ask the agent to perform a multi-step task...".

Definition unavailable_warning : string :=
  "Agent system is not available. Please resolve the errors above.".

(** Lines 95-132. *)
Definition main_logic (env : Env) (client_agent : option Agent) : M unit :=
  match client_agent with
  | Some agent =>
      emit (StChatInput chat_placeholder) ;;
      match chat_input env chat_placeholder with
      | Some prompt =>
          if truthy prompt then handle_prompt env agent prompt else ret tt
      | None => ret tt
      end
  | None => emit (StWarning unavailable_warning)
  end.

(** Lines 85-132: everything below the call of the initializer. *)
Definition session_page (env : Env) (client_agent : option Agent) : M unit :=
  init_messages ;;
  history <- get_messages ;;
  for_each (fun m => emit (ChatMarkdown (role m) (content m))) history ;;
  main_logic env client_agent.

(** One run of the whole script. *)
Definition script (env : Env) : M unit :=
  page_setup ;;
  client_agent <- cached_initialize_client_agent env ;;
  session_page env client_agent.

(** ** Runs of the process *)

(** A process that has just started: nothing cached, no session state,
    [sys.stdout] bound to the one stream the process inherited. *)
Definition fresh_process : World :=
  {| cache_resource := None;
     session_messages := None;
     sys_stdout := 0;
     streams := [""];
     effects := [] |}.

(** The world after a run, whether it returned or raised. *)
Definition after (env : Env) (w : World) : World := snd (script env w).

(** Reruns of one session, one environment per rerun. *)
Definition reruns (envs : list Env) (w : World) : World :=
  foldl (fun w env => after env w) w envs.

(** Calls of the decorated initializer, one after the other; the results,
    first call first, and the final world. *)
Fixpoint initializer_calls (envs : list Env) (w : World)
    : list (outcome (option Agent)) * World :=
  match envs with
  | [] => ([], w)
  | env :: envs' =>
      let r := cached_initialize_client_agent env w in
      let rs := initializer_calls envs' (snd r) in
      (fst r :: fst rs, snd rs)
  end.

(** What happens to a process between two instants: the script is rerun, or
    another browser session (with its own [st.session_state]) takes over. *)
Inductive process_step : World -> World -> Prop :=
| step_rerun env w : process_step w (after env w)
| step_session m w : process_step w (set_session_messages m w).

Inductive process_steps : World -> World -> Prop :=
| steps_refl w : process_steps w w
| steps_then w1 w2 w3 :
    process_steps w1 w2 -> process_step w2 w3 -> process_steps w1 w3.

(** ** Observations on the effects *)

Definition is_discovery (e : Effect) : bool :=
  match e with NewProvider _ => true | _ => false end.

Definition is_agent_call (e : Effect) : bool :=
  match e with CallAgent _ _ => true | _ => false end.

Definition is_error (e : Effect) : bool :=
  match e with StError _ => true | _ => false end.

Definition count (p : Effect -> bool) (l : list Effect) : nat :=
  length (filter (fun e => p e = true) l).

Definition discoveries (w : World) : nat := count is_discovery (effects w).

Definition agent_calls (w : World) : nat := count is_agent_call (effects w).

(** The conversation log, empty while the session has none. *)
Definition conversation_log (w : World) : list Message :=
  default [] (session_messages w).

(** [U, A, U, A, ...]: [n] pairs of roles. *)
Fixpoint alternating_roles (n : nat) : list string :=
  match n with
  | O => []
  | S n' => "user" :: "assistant" :: alternating_roles n'
  end.

(** ** Sample environments *)

Module Sample.

Definition search : Tool := {| tool_name := "search" |}.
Definition summarize : Tool := {| tool_name := "summarize" |}.

(** Discovery finds two tools and every call succeeds. *)
Definition good : Env :=
  {| provider_connect := fun _ => Returns [search; summarize];
     bedrock_init := fun _ => None;
     agent_init := fun _ _ _ => None;
     agent_call := fun _ p =>
       (["invoked search" ; "invoked summarize"], Returns ("Here is a summary of " +:+ p));
     chat_input := fun _ => Some "X" |}.

(** The same, and the user typed nothing. *)
Definition idle : Env :=
  {| provider_connect := provider_connect good;
     bedrock_init := bedrock_init good;
     agent_init := agent_init good;
     agent_call := agent_call good;
     chat_input := fun _ => None |}.

(** The agent writes one line and then fails. *)
Definition timeout : Env :=
  {| provider_connect := provider_connect good;
     bedrock_init := bedrock_init good;
     agent_init := agent_init good;
     agent_call := fun _ _ => (["calling backend"], Raises (Exception "backend timeout"));
     chat_input := fun _ => Some "X" |}.

(** The supervisor is not running. *)
Definition unreachable : Env :=
  {| provider_connect := fun _ => Raises (Exception "connection refused");
     bedrock_init := bedrock_init good;
     agent_init := agent_init good;
     agent_call := agent_call good;
     chat_input := chat_input good |}.

(** The supervisor answers and offers nothing. *)
Definition no_capabilities : Env :=
  {| provider_connect := fun _ => Returns [];
     bedrock_init := bedrock_init good;
     agent_init := agent_init good;
     agent_call := agent_call good;
     chat_input := chat_input good |}.

(** Discovery succeeds, the model backend cannot be built. *)
Definition no_backend : Env :=
  {| provider_connect := provider_connect good;
     bedrock_init := fun _ => Some (Exception "You must specify a region.");
     agent_init := agent_init good;
     agent_call := agent_call good;
     chat_input := chat_input good |}.

(** Discovery and the model succeed, the agent cannot be built. *)
Definition no_agent : Env :=
  {| provider_connect := provider_connect good;
     bedrock_init := bedrock_init good;
     agent_init := fun _ _ _ => Some (Exception "invalid tool");
     agent_call := agent_call good;
     chat_input := chat_input good |}.

Definition the_agent : Agent :=
  {| system_prompt := client_system_prompt;
     agent_tools := [search; summarize];
     model := {| model_id := client_model_id |} |}.

End Sample.

(** * Notions the properties are stated with *)

(** What a list of writes leaves in a stream. *)
Definition text (written : list string) : string :=
  foldr String.append "" written.

(** The traces the page has shown, oldest first. *)
Definition traces_shown (l : list Effect) : list string :=
  omap (fun e => match e with StatusCode s _ => Some s | _ => None end) l.

(** The appends to the log and the calls of the agent, in order. *)
Definition is_turn_event (e : Effect) : bool :=
  match e with
  | MessagesAppend _ | CallAgent _ _ => true
  | _ => false
  end.

Definition turn_events (l : list Effect) : list Effect :=
  filter (fun e => is_turn_event e = true) l.

(** The effects of lines 26-29. *)
Definition page_effects : list Effect :=
  [ SetPageConfig "Multi-Agent System UI" "🤖";
    StTitle "🤖 Multi-Agent System Interface";
    StCaption "Interact with a supervisor agent that orchestrates specialized tasks." ].

(** The effects of lines 90-92. *)
Definition history_effects (log : list Message) : list Effect :=
  map (fun m => ChatMarkdown (role m) (content m)) log.

(** The effects only [initialize_client_agent] has. *)
Definition init_only (e : Effect) : bool :=
  match e with
  | LoggerInfo _ | NewProvider _ | NewBedrockModel _ | NewAgent _ _ _
  | StError _ | StSuccess _ => true
  | _ => false
  end.

(** The agent line 68 builds from the discovered tools. *)
Definition agent_for (ts : list Tool) : Agent :=
  {| system_prompt := client_system_prompt;
     agent_tools := ts;
     model := {| model_id := client_model_id |} |}.

(** Lines 43-46: the log line and the discovery attempt. *)
Definition discovery_effects : list Effect :=
  [ LoggerInfo ("Attempting to discover agent at " +:+ SUPERVISOR_URL +:+ "...");
    NewProvider [SUPERVISOR_URL] ].

(** Lines 59-61: the discovered tools, logged by name. *)
Definition discovered_effects (ts : list Tool) : list Effect :=
  LoggerInfo "Successfully discovered the following capabilities:"
  :: map (fun t => LoggerInfo ("- " +:+ tool_name t)) ts.

(** How a call of the body ends and what it adds to the effects, from what
    the environment answers. *)
Inductive init_case (env : Env) : outcome (option Agent) -> list Effect -> Prop :=
| init_unreachable d :
    provider_connect env [SUPERVISOR_URL] = Raises (Exception d) ->
    init_case env (Returns None)
      (discovery_effects ++ connection_error_report (Exception d))
| init_interrupted d :
    provider_connect env [SUPERVISOR_URL] = Raises (BaseException d) ->
    init_case env (Raises (BaseException d)) discovery_effects
| init_no_tools :
    provider_connect env [SUPERVISOR_URL] = Returns [] ->
    init_case env (Returns None) (discovery_effects ++ no_tools_report)
| init_no_backend ts e :
    provider_connect env [SUPERVISOR_URL] = Returns ts -> ts <> [] ->
    bedrock_init env client_model_id = Some e ->
    init_case env (Raises e)
      (discovery_effects ++ discovered_effects ts
       ++ [NewBedrockModel client_model_id])
| init_no_agent ts e :
    provider_connect env [SUPERVISOR_URL] = Returns ts -> ts <> [] ->
    bedrock_init env client_model_id = None ->
    agent_init env client_system_prompt ts {| model_id := client_model_id |} = Some e ->
    init_case env (Raises e)
      (discovery_effects ++ discovered_effects ts
       ++ [NewBedrockModel client_model_id;
           NewAgent client_system_prompt ts {| model_id := client_model_id |}])
| init_ready ts :
    provider_connect env [SUPERVISOR_URL] = Returns ts -> ts <> [] ->
    bedrock_init env client_model_id = None ->
    agent_init env client_system_prompt ts {| model_id := client_model_id |} = None ->
    init_case env (Returns (Some (agent_for ts)))
      (discovery_effects ++ discovered_effects ts
       ++ [NewBedrockModel client_model_id;
           NewAgent client_system_prompt ts {| model_id := client_model_id |};
           StSuccess "Successfully connected to the Supervisor Agent."]).

(** Unfolds one monadic step on a concrete world. *)
Ltac step_bind := unfold bind at 1; cbn [emit ret raise fst snd].

(** The prompt of a run: what the input widget hands over, when it is a
    non-empty string. *)
Definition prompt_of (env : Env) : option string :=
  match chat_input env chat_placeholder with
  | Some p => if truthy p then Some p else None
  | None => None
  end.

Definition user_turn (prompt : string) : Message :=
  {| role := "user"; content := prompt |}.

Definition assistant_turn (response : string) : Message :=
  {| role := "assistant"; content := response |}.

(** Lines 97-114, up to and including the call. *)
Definition call_effects (agent : Agent) (prompt : string) : list Effect :=
  [ StChatInput chat_placeholder;
    MessagesAppend (user_turn prompt);
    ChatMarkdown "user" prompt;
    StStatus "Thinking and executing task...";
    CallAgent agent prompt ].

(** Lines 123-130, after a call that returned. *)
Definition answer_effects (trace response : string) : list Effect :=
  [ StatusMarkdown "#### Agent's Thought Process:";
    StatusCode trace "log";
    StatusUpdate "Task Complete!" "complete";
    ChatMarkdown "assistant" response;
    MessagesAppend (assistant_turn response) ].

(** The part of [session_page] above [main_logic]: the log exists from
    there on, and the history has been drawn. *)
Definition drawn (w : World) : World :=
  {| cache_resource := cache_resource w;
     session_messages := Some (conversation_log w);
     sys_stdout := sys_stdout w;
     streams := streams w;
     effects := effects w ++ history_effects (conversation_log w) |}.

(** A call of the decorated function: how it ends, what the slot holds
    afterwards and what the call adds to the effects, from the slot before
    the call. *)
Inductive cached_case (env : Env) (slot : option (option Agent))
  : outcome (option Agent) -> option (option Agent) -> list Effect -> Prop :=
| cached_hit r :
    slot = Some r -> cached_case env slot (Returns r) (Some r) []
| cached_store r added :
    slot = None -> init_case env (Returns r) added ->
    cached_case env slot (Returns r) (Some r) added
| cached_raise e added :
    slot = None -> init_case env (Raises e) added ->
    cached_case env slot (Raises e) None added.

(** The value the module-level [client_agent] gets in a run started in
    [w] (line 83), or the exception that ends the run there. *)
Definition client_agent_of (env : Env) (w : World) : outcome (option Agent) :=
  fst (cached_initialize_client_agent env w).

(** The world in which line 85 is reached. *)
Definition entered (w : World) (slot : option (option Agent))
    (added : list Effect) : World :=
  {| cache_resource := slot;
     session_messages := session_messages w;
     sys_stdout := sys_stdout w;
     streams := streams w;
     effects := effects w ++ page_effects ++ added |}.

(** Predicates on single effects. *)
Definition is_trace (e : Effect) : bool :=
  match e with StatusCode _ _ => true | _ => false end.

Definition is_chat_input (e : Effect) : bool :=
  match e with StChatInput _ => true | _ => false end.

Definition chat_inputs (w : World) : nat := count is_chat_input (effects w).

(** [p] sees nothing in [l]. *)
Definition blind (p : Effect -> bool) (l : list Effect) : Prop :=
  Forall (fun e => p e = false) l.

(** No agent is built on an empty tool list. *)
Definition builds_empty_agent (e : Effect) : bool :=
  match e with
  | NewAgent _ [] _ => true
  | _ => false
  end.

(** At most one discovery among the calls [envs] made in a new process. *)
Definition at_most_one_discovery (envs : list Env) : Prop :=
  discoveries (snd (initializer_calls envs fresh_process)) <= 1.

(** The invariant: the slot never holds an agent without tools, and no
    agent was ever built on an empty tool list. *)
Definition sessions_have_tools (w : World) : Prop :=
  (forall agent, cache_resource w = Some (Some agent) -> agent_tools agent <> [])
  /\ blind builds_empty_agent (effects w).

(** The initializer failed and None is what the slot holds. *)
Definition Unavailable (w : World) : Prop := cache_resource w = Some None.

(** A run is a turn when the script has an agent and the user typed a
    prompt. *)
Definition is_turn (env : Env) (w : World) : bool :=
  match client_agent_of env w, prompt_of env with
  | Returns (Some _), Some _ => true
  | _, _ => false
  end.

(** A turn is completed when its run reaches the end of the script, and
    aborted when an exception ends the run. *)
Definition completes_turn (env : Env) (w : World) : bool :=
  is_turn env w && returned (fst (script env w)).

Definition aborts_turn (env : Env) (w : World) : bool :=
  is_turn env w && negb (returned (fst (script env w))).

(** The completed turns among the reruns [envs] started in [w]. *)
Fixpoint completed_turns (envs : list Env) (w : World) : nat :=
  match envs with
  | [] => 0
  | env :: envs' =>
      (if completes_turn env w then 1 else 0) + completed_turns envs' (after env w)
  end.

(** None of the reruns [envs] started in [w] is an aborted turn. *)
Fixpoint no_turn_aborted (envs : list Env) (w : World) : bool :=
  match envs with
  | [] => true
  | env :: envs' => negb (aborts_turn env w) && no_turn_aborted envs' (after env w)
  end.

(** Two log entries per completed turn, for the reruns [envs] of a new
    process. *)
Definition two_entries_per_completed_turn (envs : list Env) : Prop :=
  length (conversation_log (reruns envs fresh_process))
  = 2 * completed_turns envs fresh_process.

(** The chat messages the page has drawn, oldest first. *)
Definition messages_drawn (l : list Effect) : list Message :=
  omap (fun e => match e with
                 | ChatMarkdown r s => Some {| role := r; content := s |}
                 | _ => None
                 end) l.


(** The aborted turns among the reruns [envs] started in [w]. *)
Fixpoint aborted_turns (envs : list Env) (w : World) : nat :=
  match envs with
  | [] => 0
  | env :: envs' =>
      (if aborts_turn env w then 1 else 0) + aborted_turns envs' (after env w)
  end.

(** The lines the logger wrote, oldest first. *)
Definition logged (l : list Effect) : list string :=
  omap (fun e => match e with LoggerInfo s => Some s | _ => None end) l.

(** The error lines the page has drawn, oldest first. *)
Definition errors_drawn (l : list Effect) : list string :=
  omap (fun e => match e with StError s => Some s | _ => None end) l.

Definition is_agent_construction (e : Effect) : bool :=
  match e with NewAgent _ _ _ => true | _ => false end.

(** ** Turns that overlap

    The script of one session runs while the script of another session is
    inside [client_agent(prompt)]: the two share the process, and with it
    [sys.stdout] and the streams, and each has its own
    [st.session_state].  A turn is cut at the points where the agent
    writes; between two cuts the other turn may advance. *)

(** Lines 99-114, up to the moment the agent starts to run; the result is
    [old_stdout] and [redirected_output]. *)
Definition turn_prologue (agent : Agent) (prompt : string) : M (nat * nat) :=
  messages_append {| role := "user"; content := prompt |} ;;
  emit (ChatMarkdown "user" prompt) ;;
  emit (StStatus "Thinking and executing task...") ;;
  old_stdout <- get_sys_stdout ;;
  redirected_output <- new_StringIO ;;
  put_sys_stdout redirected_output ;;
  emit (CallAgent agent prompt) ;;
  ret (old_stdout, redirected_output).

(** Lines 117-130, from the moment the agent has returned. *)
Definition turn_epilogue (captured : nat * nat) (final_response : string) : M unit :=
  put_sys_stdout (fst captured) ;;
  agent_thoughts <- getvalue (snd captured) ;;
  emit (StatusMarkdown "#### Agent's Thought Process:") ;;
  emit (StatusCode agent_thoughts "log") ;;
  emit (StatusUpdate "Task Complete!" "complete") ;;
  emit (ChatMarkdown "assistant" final_response) ;;
  messages_append {| role := "assistant"; content := final_response |}.

(** Where a turn stands: before line 99, inside the call of line 114 (with
    the two locals of lines 108-109), or past line 130. *)
Inductive Phase : Type :=
| Waiting
| Running (captured : nat * nat)
| Finished.

(** A turn in progress: the session state of its session, the agent and
    the prompt, what the agent has still to write, what it will return. *)
Record Turn : Type :=
  { turn_session : option (list Message);
    turn_agent : Agent;
    turn_prompt : string;
    turn_writes : list string;
    turn_response : string;
    turn_phase : Phase }.

Definition moved (t : Turn) (writes : list string) (phase : Phase) (w : World) : Turn :=
  {| turn_session := session_messages w;
     turn_agent := turn_agent t;
     turn_prompt := turn_prompt t;
     turn_writes := writes;
     turn_response := turn_response t;
     turn_phase := phase |}.

(** One step of a turn, on the process as the other turns left it and
    with the session state of its own session. *)
Definition advance (t : Turn) (w : World) : Turn * World :=
  let w1 := set_session_messages (turn_session t) w in
  match turn_phase t with
  | Waiting =>
      match turn_prologue (turn_agent t) (turn_prompt t) w1 with
      | (Returns captured, w2) => (moved t (turn_writes t) (Running captured) w2, w2)
      | (Raises _, w2) => (moved t (turn_writes t) Finished w2, w2)
      end
  | Running captured =>
      match turn_writes t with
      | s :: rest =>
          let w2 := snd (stdout_write s w1) in
          (moved t rest (Running captured) w2, w2)
      | [] =>
          let w2 := snd (turn_epilogue captured (turn_response t) w1) in
          (moved t [] Finished w2, w2)
      end
  | Finished => (t, w)
  end.

(** Two turns under a schedule: [false] advances the first, [true] the
    second. *)
Fixpoint overlap (schedule : list bool) (a b : Turn) (w : World)
    : Turn * Turn * World :=
  match schedule with
  | [] => (a, b, w)
  | false :: rest => overlap rest (fst (advance a w)) b (snd (advance a w))
  | true :: rest => overlap rest a (fst (advance b w)) (snd (advance b w))
  end.

(** A turn of a session with an empty log that has not started. *)
Definition new_turn (agent : Agent) (prompt : string) (writes : list string)
    (response : string) : Turn :=
  {| turn_session := Some [];
     turn_agent := agent;
     turn_prompt := prompt;
     turn_writes := writes;
     turn_response := response;
     turn_phase := Waiting |}.

(** A turn run on its own from start to end. *)
Definition alone (t : Turn) (w : World) : Turn * World :=
  Nat.iter (2 + length (turn_writes t))
    (fun p => advance (fst p) (snd p)) (t, w).

(** Two sessions whose turns overlap; the agent of the first writes A1 and
    A2, that of the second B1 and B2, and each returns. *)
Module Overlap.

Definition first : Turn := new_turn Sample.the_agent "first" ["A1"; "A2"] "a".

Definition second : Turn := new_turn Sample.the_agent "second" ["B1"; "B2"] "b".

(** The first turn redirects and writes A1; the second redirects and
    writes B1; the first writes A2 and finishes; the second writes B2 and
    finishes. *)
Definition schedule : list bool :=
  [false; false; true; true; false; false; true; true].

(** The process when both are done, started from a process whose agent is
    memoized. *)
Definition outcome : Turn * Turn * World :=
  overlap schedule first second (after Sample.idle fresh_process).

End Overlap.

(** * Properties *)

(** ** Strings and streams *)

Lemma append_empty_r (s : string) : s +:+ "" = s.
Proof.
  induction s as [|a s IH]; [reflexivity|].
  change (String a s +:+ "") with (String a (s +:+ "")). now rewrite IH.
Qed.

Lemma append_assoc (s t u : string) : (s +:+ t) +:+ u = s +:+ (t +:+ u).
Proof.
  induction s as [|a s IH]; [reflexivity|].
  change (String a ((s +:+ t) +:+ u) = String a (s +:+ (t +:+ u))).
  now rewrite IH.
Qed.

(** ** The monad's loops *)

Lemma for_each_emit {A} (f : A -> Effect) (l : list A) (w : World) :
  for_each (fun x => emit (f x)) l w
  = (Returns tt, set_effects (effects w ++ map f l) w).
Proof.
  revert w. induction l as [|x l IH]; intros w.
  - destruct w; cbn. now rewrite app_nil_r.
  - cbn [for_each]. unfold bind at 1. cbn [emit]. rewrite IH.
    destruct w; cbn. now rewrite <- app_assoc.
Qed.

Lemma for_each_stdout_write (written : list string) (w : World) :
  for_each stdout_write written w
  = (Returns tt,
     set_streams (alter (fun t => t +:+ text written) (sys_stdout w) (streams w)) w).
Proof.
  revert w. induction written as [|s l IH]; intros w.
  - destruct w as [c m h ss es]; cbn. unfold set_streams; cbn.
    rewrite list_alter_id; [reflexivity|]. intros t. apply append_empty_r.
  - cbn [for_each]. unfold bind at 1. cbn [stdout_write]. rewrite IH.
    destruct w as [c m h ss es]; cbn. unfold set_streams; cbn.
    rewrite list_alter_alter_eq. do 2 f_equal.
    apply list_alter_ext; [|reflexivity].
    intros t _. cbn. apply append_assoc.
Qed.

(** A fresh stream that received [written] reads back exactly that. *)
Lemma fresh_stream_written (ss : list string) (s : string) :
  alter (fun t => t +:+ s) (length ss) (ss ++ [""]) = ss ++ [s].
Proof.
  replace (length ss) with (length ss + 0) by lia.
  now rewrite alter_app_r.
Qed.

Lemma lookup_fresh_stream (ss : list string) (s : string) :
  (ss ++ [s]) !! length ss = Some s.
Proof. now rewrite list_lookup_middle. Qed.

(** ** The initializer, case by case *)

Lemma initialize_cases (env : Env) (w : World) :
  exists o added,
    init_case env o added /\
    initialize_client_agent env w = (o, set_effects (effects w ++ added) w).
Proof.
  destruct w as [c m h ss es].
  unfold initialize_client_agent, connect_provider.
  destruct (provider_connect env [SUPERVISOR_URL]) as [ts|[d|d]] eqn:Hp.
  - destruct ts as [|t ts].
    + exists (Returns None), (discovery_effects ++ no_tools_report).
      split; [now apply init_no_tools|].
      cbn. unfold set_effects; cbn. now rewrite <- !app_assoc.
    + set (l := t :: ts).
      destruct (bedrock_init env client_model_id) as [e|] eqn:Hb.
      * exists (Raises e). eexists. split; [eapply init_no_backend; eauto; discriminate|].
        unfold bind, emit, ret, set_effects; cbn.
        rewrite (for_each_emit (fun t => LoggerInfo ("- " +:+ tool_name t))).
        unfold new_bedrock_model, bind, emit, set_effects; cbn. rewrite Hb.
        unfold raise; cbn. fold l. unfold discovered_effects.
        repeat (rewrite <- ?app_assoc; cbn [app]). reflexivity.
      * destruct (agent_init env client_system_prompt l {| model_id := client_model_id |})
          as [e|] eqn:Ha.
        -- exists (Raises e). eexists. split; [eapply init_no_agent; eauto; discriminate|].
           unfold bind, emit, ret, set_effects; cbn.
           rewrite (for_each_emit (fun t => LoggerInfo ("- " +:+ tool_name t))).
           unfold new_bedrock_model, new_agent, bind, emit, ret, set_effects; cbn.
           rewrite Hb; cbn. fold l. rewrite Ha.
           unfold raise; cbn. unfold discovered_effects.
           repeat (rewrite <- ?app_assoc; cbn [app]). reflexivity.
        -- exists (Returns (Some (agent_for l))). eexists.
           split; [eapply init_ready; eauto; discriminate|].
           unfold bind, emit, ret, set_effects; cbn.
           rewrite (for_each_emit (fun t => LoggerInfo ("- " +:+ tool_name t))).
           unfold new_bedrock_model, new_agent, bind, emit, ret, set_effects; cbn.
           rewrite Hb; cbn. fold l. rewrite Ha.
           unfold discovered_effects, agent_for; cbn.
           repeat (rewrite <- ?app_assoc; cbn [app]). reflexivity.
  - exists (Returns None). eexists. split; [exact (init_unreachable env d Hp)|].
    cbn. unfold set_effects; cbn. now rewrite <- !app_assoc.
  - exists (Raises (BaseException d)), discovery_effects.
    split; [now apply init_interrupted|].
    cbn. unfold set_effects; cbn. now rewrite <- !app_assoc.
Qed.

(** ** The page, case by case *)

Lemma page_setup_spec (w : World) :
  page_setup w = (Returns tt, set_effects (effects w ++ page_effects) w).
Proof.
  destruct w; unfold page_setup, bind, emit, set_effects; cbn.
  now rewrite <- !app_assoc.
Qed.

Lemma main_logic_no_prompt (env : Env) (agent : Agent) (w : World) :
  prompt_of env = None ->
  main_logic env (Some agent) w
  = (Returns tt, set_effects (effects w ++ [StChatInput chat_placeholder]) w).
Proof.
  unfold prompt_of, main_logic. intros Hp. step_bind.
  destruct (chat_input env chat_placeholder) as [p|]; [|reflexivity].
  destruct (truthy p); [discriminate|reflexivity].
Qed.

Lemma main_logic_prompt (env : Env) (agent : Agent) (prompt : string) (w : World) :
  prompt_of env = Some prompt ->
  main_logic env (Some agent) w
  = handle_prompt env agent prompt
      (set_effects (effects w ++ [StChatInput chat_placeholder]) w).
Proof.
  unfold prompt_of, main_logic. intros Hp. step_bind.
  destruct (chat_input env chat_placeholder) as [p|]; [|discriminate].
  destruct (truthy p); [|discriminate]. now injection Hp as ->.
Qed.

Lemma handle_prompt_returns (env : Env) (agent : Agent) (prompt : string)
    (written : list string) (response : string) (log : list Message) (w : World) :
  session_messages w = Some log ->
  agent_call env agent prompt = (written, Returns response) ->
  handle_prompt env agent prompt w
  = (Returns tt,
     {| cache_resource := cache_resource w;
        session_messages := Some (log ++ [user_turn prompt; assistant_turn response]);
        sys_stdout := sys_stdout w;
        streams := streams w ++ [text written];
        effects := effects w ++ tail (call_effects agent prompt)
                   ++ answer_effects (text written) response |}).
Proof.
  destruct w as [c m h ss es]; cbn. intros -> Hcall.
  unfold handle_prompt, messages_append, call_agent.
  unfold bind, get_messages, emit, get_sys_stdout, new_StringIO, put_sys_stdout,
    set_effects, set_session_messages, set_streams, set_sys_stdout; cbn.
  rewrite Hcall; cbn. rewrite for_each_stdout_write; cbn.
  unfold getvalue, set_streams, ret; cbn.
  rewrite fresh_stream_written, lookup_fresh_stream; cbn.
  repeat (rewrite <- ?app_assoc; cbn [app]). reflexivity.
Qed.

Lemma handle_prompt_raises (env : Env) (agent : Agent) (prompt : string)
    (written : list string) (e : exn) (log : list Message) (w : World) :
  session_messages w = Some log ->
  agent_call env agent prompt = (written, Raises e) ->
  handle_prompt env agent prompt w
  = (Raises e,
     {| cache_resource := cache_resource w;
        session_messages := Some (log ++ [user_turn prompt]);
        sys_stdout := length (streams w);
        streams := streams w ++ [text written];
        effects := effects w ++ tail (call_effects agent prompt) |}).
Proof.
  destruct w as [c m h ss es]; cbn. intros -> Hcall.
  unfold handle_prompt, messages_append, call_agent.
  unfold bind, get_messages, emit, get_sys_stdout, new_StringIO, put_sys_stdout,
    set_effects, set_session_messages, set_streams, set_sys_stdout; cbn.
  rewrite Hcall; cbn. rewrite for_each_stdout_write; cbn.
  unfold raise, set_streams; cbn.
  rewrite fresh_stream_written.
  repeat (rewrite <- ?app_assoc; cbn [app]). reflexivity.
Qed.

Lemma session_page_spec (env : Env) (client_agent : option Agent) (w : World) :
  session_page env client_agent w = main_logic env client_agent (drawn w).
Proof.
  destruct w as [c [log|] h ss es];
    unfold session_page, drawn, conversation_log, init_messages, get_messages; cbn.
  - unfold bind at 1.
    now rewrite (for_each_emit (fun m => ChatMarkdown (role m) (content m))).
  - unfold set_session_messages; cbn. now rewrite app_nil_r.
Qed.

(** ** The memoized initializer, case by case *)

(** The environment decides how the body ends and what it adds. *)
Lemma init_case_functional (env : Env) o1 o2 added1 added2 :
  init_case env o1 added1 -> init_case env o2 added2 ->
  o1 = o2 /\ added1 = added2.
Proof.
  intros H1 H2; destruct H1; destruct H2; split; congruence.
Qed.

Lemma cached_cases (env : Env) (w : World) :
  exists o slot added,
    cached_case env (cache_resource w) o slot added /\
    cached_initialize_client_agent env w
    = (o, set_cache_resource slot (set_effects (effects w ++ added) w)).
Proof.
  unfold cached_initialize_client_agent.
  destruct (cache_resource w) as [r|] eqn:Hslot.
  - exists (Returns r), (Some r), []. split; [now constructor|].
    destruct w; cbn in *. subst. unfold set_cache_resource, set_effects; cbn.
    now rewrite app_nil_r.
  - destruct (initialize_cases env w) as (o & added & Hcase & ->).
    destruct o as [r|e].
    + exists (Returns r), (Some r), added. split; [now constructor|reflexivity].
    + exists (Raises e), None, added. split; [now constructor|].
      destruct w; cbn in *. subst. reflexivity.
Qed.

Lemma cached_case_functional (env : Env) slot o1 o2 s1 s2 added1 added2 :
  cached_case env slot o1 s1 added1 -> cached_case env slot o2 s2 added2 ->
  o1 = o2 /\ s1 = s2 /\ added1 = added2.
Proof.
  intros H1 H2; destruct H1; destruct H2; subst;
    try discriminate;
    try (match goal with
         | Ha : init_case _ _ _, Hb : init_case _ _ _ |- _ =>
             destruct (init_case_functional _ _ _ _ _ Ha Hb) as [Ho ->]
         end);
    repeat split; congruence.
Qed.

Lemma script_enters (env : Env) (w : World) :
  exists slot added,
    cached_case env (cache_resource w) (client_agent_of env w) slot added /\
    script env w
    = match client_agent_of env w with
      | Returns client_agent =>
          main_logic env client_agent (drawn (entered w slot added))
      | Raises e => (Raises e, entered w slot added)
      end.
Proof.
  destruct (cached_cases env w) as (o & slot & added & Hcase & Hw).
  destruct (cached_cases env (set_effects (effects w ++ page_effects) w))
    as (o' & slot' & added' & Hcase' & Hw').
  cbn [cache_resource set_effects] in Hcase'.
  destruct (cached_case_functional _ _ _ _ _ _ _ _ Hcase Hcase') as (<- & <- & <-).
  exists slot, added. unfold client_agent_of. rewrite Hw; cbn [fst].
  split; [exact Hcase|].
  unfold script. unfold bind at 1. rewrite page_setup_spec.
  unfold bind at 1. rewrite Hw'.
  assert (set_cache_resource slot
            (set_effects (effects (set_effects (effects w ++ page_effects) w) ++ added)
               (set_effects (effects w ++ page_effects) w))
          = entered w slot added) as ->.
  { destruct w; unfold entered, set_cache_resource, set_effects; cbn.
    now rewrite <- app_assoc. }
  destruct o as [client|e]; [apply session_page_spec|reflexivity].
Qed.

Lemma cached_case_returns (env : Env) slot r s added :
  cached_case env slot (Returns r) s added -> s = Some r.
Proof. now inversion 1. Qed.

Lemma cached_case_raises (env : Env) slot e s added :
  cached_case env slot (Raises e) s added ->
  slot = None /\ s = None /\ init_case env (Raises e) added.
Proof. now inversion 1. Qed.

(** ** One run of the script, case by case *)

Section OneRun.

Variables (env : Env) (w : World).

Let log := conversation_log w.

(** The initializer raised: the run ends at line 83. *)
Lemma run_initializer_raises e :
  client_agent_of env w = Raises e ->
  exists added,
    init_case env (Raises e) added /\ cache_resource w = None /\
    script env w = (Raises e, entered w None added).
Proof.
  intros Hc. destruct (script_enters env w) as (slot & added & Hcase & Hs).
  rewrite Hc in Hcase, Hs.
  apply cached_case_raises in Hcase as (Hslot & -> & Hinit).
  now exists added.
Qed.

(** No agent: the page shows the warning, lines 131-132. *)
Lemma run_unavailable :
  client_agent_of env w = Returns None ->
  exists added,
    cached_case env (cache_resource w) (Returns None) (Some None) added /\
    script env w
    = (Returns tt,
       {| cache_resource := Some None;
          session_messages := Some log;
          sys_stdout := sys_stdout w;
          streams := streams w;
          effects := effects w ++ page_effects ++ added ++ history_effects log
                     ++ [StWarning unavailable_warning] |}).
Proof.
  intros Hc. destruct (script_enters env w) as (slot & added & Hcase & Hs).
  rewrite Hc in Hcase, Hs.
  pose proof (cached_case_returns _ _ _ _ _ Hcase) as ->.
  exists added. split; [exact Hcase|]. rewrite Hs.
  unfold main_logic, emit, drawn, entered, set_effects; cbn.
  fold log. now rewrite <- !app_assoc.
Qed.

(** An agent and no prompt: the input widget is drawn, nothing else. *)
Lemma run_no_prompt agent :
  client_agent_of env w = Returns (Some agent) ->
  prompt_of env = None ->
  exists added,
    cached_case env (cache_resource w) (Returns (Some agent)) (Some (Some agent)) added /\
    script env w
    = (Returns tt,
       {| cache_resource := Some (Some agent);
          session_messages := Some log;
          sys_stdout := sys_stdout w;
          streams := streams w;
          effects := effects w ++ page_effects ++ added ++ history_effects log
                     ++ [StChatInput chat_placeholder] |}).
Proof.
  intros Hc Hp. destruct (script_enters env w) as (slot & added & Hcase & Hs).
  rewrite Hc in Hcase, Hs.
  pose proof (cached_case_returns _ _ _ _ _ Hcase) as ->.
  exists added. split; [exact Hcase|]. rewrite Hs, main_logic_no_prompt by exact Hp.
  unfold drawn, entered, set_effects; cbn.
  fold log. now rewrite <- !app_assoc.
Qed.

(** A turn whose call of the agent returns. *)
Lemma run_turn_returns agent prompt written response :
  client_agent_of env w = Returns (Some agent) ->
  prompt_of env = Some prompt ->
  agent_call env agent prompt = (written, Returns response) ->
  exists added,
    cached_case env (cache_resource w) (Returns (Some agent)) (Some (Some agent)) added /\
    script env w
    = (Returns tt,
       {| cache_resource := Some (Some agent);
          session_messages :=
            Some (log ++ [user_turn prompt; assistant_turn response]);
          sys_stdout := sys_stdout w;
          streams := streams w ++ [text written];
          effects := effects w ++ page_effects ++ added ++ history_effects log
                     ++ call_effects agent prompt
                     ++ answer_effects (text written) response |}).
Proof.
  intros Hc Hp Hcall. destruct (script_enters env w) as (slot & added & Hcase & Hs).
  rewrite Hc in Hcase, Hs.
  pose proof (cached_case_returns _ _ _ _ _ Hcase) as ->.
  exists added. split; [exact Hcase|]. rewrite Hs.
  rewrite (main_logic_prompt _ _ prompt) by exact Hp.
  rewrite (handle_prompt_returns _ _ _ written response log) by (reflexivity || exact Hcall).
  unfold drawn, entered, set_effects; cbn. fold log.
  repeat (rewrite <- ?app_assoc; cbn [app]). reflexivity.
Qed.

(** A turn whose call of the agent raises: the run ends at line 114. *)
Lemma run_turn_raises agent prompt written e :
  client_agent_of env w = Returns (Some agent) ->
  prompt_of env = Some prompt ->
  agent_call env agent prompt = (written, Raises e) ->
  exists added,
    cached_case env (cache_resource w) (Returns (Some agent)) (Some (Some agent)) added /\
    script env w
    = (Raises e,
       {| cache_resource := Some (Some agent);
          session_messages := Some (log ++ [user_turn prompt]);
          sys_stdout := length (streams w);
          streams := streams w ++ [text written];
          effects := effects w ++ page_effects ++ added ++ history_effects log
                     ++ call_effects agent prompt |}).
Proof.
  intros Hc Hp Hcall. destruct (script_enters env w) as (slot & added & Hcase & Hs).
  rewrite Hc in Hcase, Hs.
  pose proof (cached_case_returns _ _ _ _ _ Hcase) as ->.
  exists added. split; [exact Hcase|]. rewrite Hs.
  rewrite (main_logic_prompt _ _ prompt) by exact Hp.
  rewrite (handle_prompt_raises _ _ _ written e log) by (reflexivity || exact Hcall).
  unfold drawn, entered, set_effects; cbn. fold log.
  repeat (rewrite <- ?app_assoc; cbn [app]). reflexivity.
Qed.

End OneRun.

(** ** Observations that the initializer and the history do not disturb *)

Lemma blind_app p l1 l2 : blind p l1 -> blind p l2 -> blind p (l1 ++ l2).
Proof. unfold blind. rewrite Forall_app. tauto. Qed.

Lemma blind_filter p l : blind p l -> filter (fun e => p e = true) l = [].
Proof.
  induction 1 as [|e l He _ IH]; [reflexivity|].
  rewrite filter_cons_False; [exact IH|]. rewrite He. discriminate.
Qed.

Lemma blind_count p l : blind p l -> count p l = 0.
Proof. intros H. unfold count. now rewrite blind_filter. Qed.

Lemma blind_traces l : blind is_trace l -> traces_shown l = [].
Proof.
  induction 1 as [|e l He _ IH]; [reflexivity|].
  destruct e; try discriminate; exact IH.
Qed.

Lemma count_app p l1 l2 : count p (l1 ++ l2) = count p l1 + count p l2.
Proof. unfold count. now rewrite filter_app, length_app. Qed.

Lemma turn_events_app l1 l2 :
  turn_events (l1 ++ l2) = turn_events l1 ++ turn_events l2.
Proof. apply filter_app. Qed.

Lemma traces_shown_app l1 l2 :
  traces_shown (l1 ++ l2) = traces_shown l1 ++ traces_shown l2.
Proof. apply omap_app. Qed.

Lemma blind_history p log :
  (forall r s, p (ChatMarkdown r s) = false) -> blind p (history_effects log).
Proof.
  intros Hp. induction log as [|m log IH]; constructor; [apply Hp|exact IH].
Qed.

Lemma blind_discovered p ts :
  (forall s, p (LoggerInfo s) = false) -> blind p (discovered_effects ts).
Proof.
  intros Hp. constructor; [apply Hp|].
  induction ts as [|t ts IH]; constructor; [apply Hp|exact IH].
Qed.

(** What the body of the initializer adds is made of its own effects. *)
Lemma init_case_init_only env o added :
  init_case env o added -> Forall (fun e => init_only e = true) added.
Proof.
  assert (forall ts, Forall (fun e => init_only e = true) (discovered_effects ts)) as Hd.
  { intros ts. constructor; [reflexivity|].
    induction ts; constructor; [reflexivity|assumption]. }
  destruct 1; rewrite ?Forall_app; repeat split;
    try apply Hd; repeat constructor.
Qed.

Lemma cached_case_init_only env slot o s added :
  cached_case env slot o s added -> Forall (fun e => init_only e = true) added.
Proof. destruct 1; [constructor|..]; eauto using init_case_init_only. Qed.

Lemma blind_init p env slot o s added :
  (forall e, init_only e = true -> p e = false) ->
  cached_case env slot o s added -> blind p added.
Proof.
  intros Hp Hc. apply cached_case_init_only in Hc.
  unfold blind. eapply Forall_impl; [exact Hc|]. exact Hp.
Qed.

(** Every body of the initializer attempts discovery exactly once. *)
Lemma init_case_discovers_once env o added :
  init_case env o added -> count is_discovery added = 1.
Proof.
  assert (forall ts, count is_discovery (discovered_effects ts) = 0) as Hd.
  { intros ts. apply blind_count, blind_discovered. reflexivity. }
  destruct 1; rewrite ?count_app, ?Hd; reflexivity.
Qed.

Lemma init_case_no_empty_agent env o added :
  init_case env o added -> blind builds_empty_agent added.
Proof.
  assert (forall ts, blind builds_empty_agent (discovered_effects ts)) as Hd.
  { intros ts. now apply blind_discovered. }
  destruct 1; unfold blind; rewrite ?Forall_app; repeat split;
    try apply Hd; repeat constructor;
    match goal with H : ?ts <> [] |- _ => destruct ts; [contradiction|reflexivity] end.
Qed.

(** The agent the body returns carries the tools discovery found, and
    there is at least one. *)
Lemma init_case_agent_has_tools env agent added :
  init_case env (Returns (Some agent)) added -> agent_tools agent <> [].
Proof. inversion 1; subst; assumption. Qed.

(** ** Memoization of the initializer *)

(** Once the slot is filled, calls return its content and change nothing. *)
Lemma cached_initialize_hit (env : Env) (w : World) r :
  cache_resource w = Some r ->
  cached_initialize_client_agent env w = (Returns r, w).
Proof.
  intros Hslot. unfold cached_initialize_client_agent. now rewrite Hslot.
Qed.

Lemma initializer_calls_hit (envs : list Env) (w : World) r :
  cache_resource w = Some r ->
  initializer_calls envs w = (replicate (length envs) (Returns r), w).
Proof.
  intros Hslot. induction envs as [|env envs IH]; [reflexivity|].
  cbn [initializer_calls length replicate].
  rewrite (cached_initialize_hit env w r Hslot). cbn [fst snd].
  now rewrite IH.
Qed.

Lemma client_agent_of_hit (env : Env) (w : World) r :
  cache_resource w = Some r -> client_agent_of env w = Returns r.
Proof.
  intros Hslot. unfold client_agent_of, cached_initialize_client_agent.
  now rewrite Hslot.
Qed.

(** The first call that returns fills the slot, after one discovery. *)
Lemma first_return_fills_slot (env : Env) (w : World) r :
  cache_resource w = None ->
  client_agent_of env w = Returns r ->
  cache_resource (snd (cached_initialize_client_agent env w)) = Some r /\
  discoveries (snd (cached_initialize_client_agent env w)) = discoveries w + 1.
Proof.
  intros Hslot Hr. unfold client_agent_of in Hr.
  destruct (cached_cases env w) as (o & slot & added & Hcase & Hw).
  rewrite Hw in Hr |- *. cbn [fst] in Hr. subst o. cbn [snd].
  inversion Hcase as [r' Hs|r' added' Hs Hinit|]; subst; [congruence|].
  split; [reflexivity|].
  unfold discoveries; cbn [snd set_cache_resource set_effects effects].
  rewrite count_app. now rewrite (init_case_discovers_once _ _ _ Hinit).
Qed.

(** C1, as stated, fails: when the model backend cannot be built the first
    call raises after discovery and memoizes nothing, so the second call
    discovers again, and its result is not that of the first call. *)
Lemma discovery_repeated_after_raise :
  fst (initializer_calls [Sample.no_backend; Sample.good] fresh_process)
  = [Raises (Exception "You must specify a region.");
     Returns (Some Sample.the_agent)]
  /\ discoveries (snd (initializer_calls [Sample.no_backend; Sample.good] fresh_process)) = 2
  /\ ~ at_most_one_discovery [Sample.no_backend; Sample.good].
Proof.
  split; [reflexivity|]. split; [reflexivity|].
  unfold at_most_one_discovery.
  change (discoveries (snd (initializer_calls [Sample.no_backend; Sample.good] fresh_process)))
    with 2.
  lia.
Qed.

(** C1, amended: in every sequence of calls of the decorated initializer
    whose first call finds the slot empty and returns (an agent, or None
    after a failed or empty discovery), that first call performs the one
    discovery attempt of the sequence, and every later call returns the
    memoized result of the first without discovering again. *)
Theorem initializer_memoized_after_first_return
    (env : Env) (envs : list Env) (w : World) (r : option Agent) :
  cache_resource w = None ->
  client_agent_of env w = Returns r ->
  fst (initializer_calls (env :: envs) w)
  = Returns r :: replicate (length envs) (Returns r)
  /\ discoveries (snd (initializer_calls (env :: envs) w)) = discoveries w + 1
  /\ cache_resource (snd (initializer_calls (env :: envs) w)) = Some r.
Proof.
  intros Hslot Hr.
  destruct (first_return_fills_slot env w r Hslot Hr) as [Hfill Hone].
  cbn [initializer_calls fst snd].
  rewrite (initializer_calls_hit envs _ r Hfill). cbn [fst snd].
  fold (client_agent_of env w). rewrite Hr. auto.
Qed.

Lemma initializer_memoized_after_first_return_witness :
  fst (initializer_calls [Sample.unreachable; Sample.good; Sample.good] fresh_process)
  = [Returns None; Returns None; Returns None]
  /\ discoveries
       (snd (initializer_calls [Sample.unreachable; Sample.good; Sample.good] fresh_process))
     = 1
  /\ cache_resource
       (snd (initializer_calls [Sample.unreachable; Sample.good; Sample.good] fresh_process))
     = Some None.
Proof.
  exact (initializer_memoized_after_first_return
           Sample.unreachable [Sample.good; Sample.good] fresh_process None
           eq_refl eq_refl).
Defined.

(** ** A turn whose call of the agent raises *)

(** The initializer and the history show no trace, append nothing to the
    log and do not call the agent. *)
Lemma init_shows_no_trace env slot o s added :
  cached_case env slot o s added -> traces_shown added = [].
Proof.
  intros Hc. apply blind_traces. eapply blind_init; [|exact Hc]. now intros [].
Qed.

Lemma history_shows_no_trace log : traces_shown (history_effects log) = [].
Proof. apply blind_traces. now apply blind_history. Qed.

Lemma init_has_no_turn_event env slot o s added :
  cached_case env slot o s added -> turn_events added = [].
Proof.
  intros Hc. apply blind_filter. eapply blind_init; [|exact Hc]. now intros [].
Qed.

Lemma history_has_no_turn_event log : turn_events (history_effects log) = [].
Proof. apply blind_filter. now apply blind_history. Qed.

(** C2, as stated, fails: after a run that initialized the session, a turn
    whose call raises "backend timeout" ends the run with that exception;
    the log holds the user entry and no assistant entry, and no trace was
    shown although the agent had written a line. *)
Lemma run_failure_leaves_no_assistant_entry :
  cache_resource (after Sample.idle fresh_process) = Some (Some Sample.the_agent)
  /\ fst (script Sample.timeout (after Sample.idle fresh_process))
     = Raises (Exception "backend timeout")
  /\ conversation_log (after Sample.timeout (after Sample.idle fresh_process))
     = [user_turn "X"]
  /\ ~ (exists m, m ∈ conversation_log (after Sample.timeout (after Sample.idle fresh_process))
                  /\ role m = "assistant")
  /\ traces_shown (effects (after Sample.timeout (after Sample.idle fresh_process))) = [].
Proof.
  repeat split; try reflexivity.
  intros (m & Hin & Hrole).
  change (conversation_log (after Sample.timeout (after Sample.idle fresh_process)))
    with [user_turn "X"] in Hin.
  apply list_elem_of_singleton in Hin. subst m. discriminate.
Qed.

(** C2, amended: in every turn for which the session is initialized and
    whose call of the agent raises, the exception leaves the script (it is
    not rendered as a response): the log gains the user entry only, no
    trace is shown, and the memoized session stays in place, so the next
    run gets the same agent without a new discovery. *)
Theorem run_failure_propagates
    (env : Env) (w : World) (agent : Agent) (prompt : string)
    (written : list string) (e : exn) :
  client_agent_of env w = Returns (Some agent) ->
  prompt_of env = Some prompt ->
  agent_call env agent prompt = (written, Raises e) ->
  fst (script env w) = Raises e
  /\ conversation_log (after env w) = conversation_log w ++ [user_turn prompt]
  /\ traces_shown (effects (after env w)) = traces_shown (effects w)
  /\ cache_resource (after env w) = Some (Some agent)
  /\ forall env', cached_initialize_client_agent env' (after env w)
                  = (Returns (Some agent), after env w).
Proof.
  intros Hc Hp Hcall.
  destruct (run_turn_raises env w agent prompt written e Hc Hp Hcall)
    as (added & Hcase & Hs).
  unfold after. rewrite Hs. cbn [fst snd].
  split; [reflexivity|]. split; [reflexivity|]. split.
  - cbn [effects]. rewrite !traces_shown_app.
    rewrite (init_shows_no_trace _ _ _ _ _ Hcase), history_shows_no_trace.
    cbn. now rewrite app_nil_r.
  - split; [reflexivity|]. intros env'. now apply cached_initialize_hit.
Qed.

Lemma run_failure_propagates_witness :
  fst (script Sample.timeout (after Sample.idle fresh_process))
  = Raises (Exception "backend timeout")
  /\ conversation_log (after Sample.timeout (after Sample.idle fresh_process))
     = conversation_log (after Sample.idle fresh_process) ++ [user_turn "X"]
  /\ traces_shown (effects (after Sample.timeout (after Sample.idle fresh_process)))
     = traces_shown (effects (after Sample.idle fresh_process))
  /\ cache_resource (after Sample.timeout (after Sample.idle fresh_process))
     = Some (Some Sample.the_agent)
  /\ forall env',
       cached_initialize_client_agent env'
         (after Sample.timeout (after Sample.idle fresh_process))
       = (Returns (Some Sample.the_agent),
          after Sample.timeout (after Sample.idle fresh_process)).
Proof.
  exact (run_failure_propagates Sample.timeout (after Sample.idle fresh_process)
           Sample.the_agent "X" ["calling backend"] (Exception "backend timeout")
           eq_refl eq_refl eq_refl).
Defined.

(** ** A turn whose call of the agent returns *)

(** The one trace such a turn shows is what its call wrote. *)
Lemma turn_shows_written
    (env : Env) (w : World) (agent : Agent) (prompt : string)
    (written : list string) (response : string) :
  client_agent_of env w = Returns (Some agent) ->
  prompt_of env = Some prompt ->
  agent_call env agent prompt = (written, Returns response) ->
  traces_shown (effects (after env w)) = traces_shown (effects w) ++ [text written].
Proof.
  intros Hc Hp Hcall.
  destruct (run_turn_returns env w agent prompt written response Hc Hp Hcall)
    as (added & Hcase & Hs).
  unfold after. rewrite Hs. cbn [snd effects]. rewrite !traces_shown_app.
  rewrite (init_shows_no_trace _ _ _ _ _ Hcase), history_shows_no_trace.
  reflexivity.
Qed.

(** C3, amended: when the runs of the script follow one another (no two
    turns overlap), in every turn whose call of the agent returns the trace
    the page shows is exactly what that call wrote to [sys.stdout],
    whatever the world held before; the text went to a new stream, every
    stream that existed before the turn (the inherited standard output
    among them) is unchanged, and a later turn shows its own output
    only. *)
Theorem trace_isolation
    (env : Env) (w : World) (agent : Agent) (prompt : string)
    (written : list string) (response : string) :
  client_agent_of env w = Returns (Some agent) ->
  prompt_of env = Some prompt ->
  agent_call env agent prompt = (written, Returns response) ->
  traces_shown (effects (after env w)) = traces_shown (effects w) ++ [text written]
  /\ streams (after env w) = streams w ++ [text written]
  /\ (forall h, h < length (streams w) -> streams (after env w) !! h = streams w !! h)
  /\ forall env2 prompt2 written2 response2,
       prompt_of env2 = Some prompt2 ->
       agent_call env2 agent prompt2 = (written2, Returns response2) ->
       traces_shown (effects (after env2 (after env w)))
       = traces_shown (effects w) ++ [text written; text written2].
Proof.
  intros Hc Hp Hcall.
  destruct (run_turn_returns env w agent prompt written response Hc Hp Hcall)
    as (added & Hcase & Hs).
  split; [now apply (turn_shows_written env w agent prompt written response)|].
  assert (streams (after env w) = streams w ++ [text written]) as Hstreams
    by (unfold after; now rewrite Hs).
  split; [exact Hstreams|]. split.
  - intros h Hh. rewrite Hstreams. now apply lookup_app_l.
  - intros env2 prompt2 written2 response2 Hp2 Hcall2.
    rewrite (turn_shows_written env2 (after env w) agent prompt2 written2 response2); [|
      apply client_agent_of_hit; unfold after; now rewrite Hs | exact Hp2 | exact Hcall2].
    rewrite (turn_shows_written env w agent prompt written response Hc Hp Hcall).
    now rewrite <- app_assoc.
Qed.

Lemma trace_isolation_witness :
  traces_shown (effects (after Sample.good (after Sample.timeout fresh_process)))
  = traces_shown (effects (after Sample.timeout fresh_process))
    ++ [text ["invoked search"; "invoked summarize"]]
  /\ streams (after Sample.good (after Sample.timeout fresh_process))
     = streams (after Sample.timeout fresh_process)
       ++ [text ["invoked search"; "invoked summarize"]].
Proof.
  pose proof (trace_isolation Sample.good (after Sample.timeout fresh_process)
                Sample.the_agent "X" ["invoked search"; "invoked summarize"]
                "Here is a summary of X" eq_refl eq_refl eq_refl) as H.
  exact (conj (proj1 H) (proj1 (proj2 H))).
Defined.

(** C7: in every completed turn the trace is shown and the log gains the
    user request and the assistant response, nothing else: the log after
    the turn is the same whatever the agent wrote while it ran. *)
Theorem trace_not_persisted
    (env : Env) (w : World) (agent : Agent) (prompt : string)
    (written : list string) (response : string) :
  client_agent_of env w = Returns (Some agent) ->
  prompt_of env = Some prompt ->
  agent_call env agent prompt = (written, Returns response) ->
  traces_shown (effects (after env w)) = traces_shown (effects w) ++ [text written]
  /\ conversation_log (after env w)
     = conversation_log w ++ [user_turn prompt; assistant_turn response]
  /\ forall env' written',
       client_agent_of env' w = Returns (Some agent) ->
       prompt_of env' = Some prompt ->
       agent_call env' agent prompt = (written', Returns response) ->
       conversation_log (after env' w) = conversation_log (after env w).
Proof.
  intros Hc Hp Hcall.
  assert (forall env1 written1,
            client_agent_of env1 w = Returns (Some agent) ->
            prompt_of env1 = Some prompt ->
            agent_call env1 agent prompt = (written1, Returns response) ->
            conversation_log (after env1 w)
            = conversation_log w ++ [user_turn prompt; assistant_turn response]) as Hlog.
  { intros env1 written1 Hc1 Hp1 Hcall1.
    destruct (run_turn_returns env1 w agent prompt written1 response Hc1 Hp1 Hcall1)
      as (added & _ & Hs).
    unfold after. now rewrite Hs. }
  split; [now apply (turn_shows_written env w agent prompt written response)|].
  split; [now apply (Hlog env written)|].
  intros env' written' Hc' Hp' Hcall'.
  now rewrite (Hlog env' written'), (Hlog env written).
Qed.

Lemma trace_not_persisted_witness :
  traces_shown (effects (after Sample.good fresh_process))
  = traces_shown (effects fresh_process) ++ [text ["invoked search"; "invoked summarize"]]
  /\ conversation_log (after Sample.good fresh_process)
     = conversation_log fresh_process
       ++ [user_turn "X"; assistant_turn "Here is a summary of X"].
Proof.
  pose proof (trace_not_persisted Sample.good fresh_process Sample.the_agent "X"
                ["invoked search"; "invoked summarize"] "Here is a summary of X"
                eq_refl eq_refl eq_refl) as H.
  exact (conj (proj1 H) (proj1 (proj2 H))).
Defined.

(** C10: a turn whose call of the agent returns leaves [sys.stdout] bound
    to the stream it was bound to when the turn began. *)
Theorem stdout_restored
    (env : Env) (w : World) (agent : Agent) (prompt : string)
    (written : list string) (response : string) :
  client_agent_of env w = Returns (Some agent) ->
  prompt_of env = Some prompt ->
  agent_call env agent prompt = (written, Returns response) ->
  sys_stdout (after env w) = sys_stdout w.
Proof.
  intros Hc Hp Hcall.
  destruct (run_turn_returns env w agent prompt written response Hc Hp Hcall)
    as (added & _ & Hs).
  unfold after. now rewrite Hs.
Qed.

Lemma stdout_restored_witness :
  sys_stdout (after Sample.good (after Sample.timeout fresh_process))
  = sys_stdout (after Sample.timeout fresh_process).
Proof.
  exact (stdout_restored Sample.good (after Sample.timeout fresh_process)
           Sample.the_agent "X" ["invoked search"; "invoked summarize"]
           "Here is a summary of X" eq_refl eq_refl eq_refl).
Defined.

(** ** The order of a turn *)

(** C8: in every turn the user entry is appended to the log before the
    agent is called (of the appends and calls of the run, the append of the
    user entry comes first and the call right after it); so when the call
    raises, the run ends with a log whose last entry is that user entry,
    without an assistant entry after it. *)
Theorem user_turn_logged_before_call
    (env : Env) (w : World) (agent : Agent) (prompt : string) :
  client_agent_of env w = Returns (Some agent) ->
  prompt_of env = Some prompt ->
  (exists rest,
     turn_events (effects (after env w))
     = turn_events (effects w)
       ++ MessagesAppend (user_turn prompt) :: CallAgent agent prompt :: rest)
  /\ forall written e,
       agent_call env agent prompt = (written, Raises e) ->
       fst (script env w) = Raises e
       /\ conversation_log (after env w) = conversation_log w ++ [user_turn prompt]
       /\ last (conversation_log (after env w)) = Some (user_turn prompt)
       /\ turn_events (effects (after env w))
          = turn_events (effects w)
            ++ [MessagesAppend (user_turn prompt); CallAgent agent prompt].
Proof.
  intros Hc Hp.
  assert (forall written e,
            agent_call env agent prompt = (written, Raises e) ->
            fst (script env w) = Raises e
            /\ conversation_log (after env w) = conversation_log w ++ [user_turn prompt]
            /\ turn_events (effects (after env w))
               = turn_events (effects w)
                 ++ [MessagesAppend (user_turn prompt); CallAgent agent prompt]) as Hraise.
  { intros written e Hcall.
    destruct (run_turn_raises env w agent prompt written e Hc Hp Hcall)
      as (added & Hcase & Hs).
    unfold after. rewrite Hs. cbn [fst snd effects].
    split; [reflexivity|]. split; [reflexivity|].
    rewrite !turn_events_app.
    rewrite (init_has_no_turn_event _ _ _ _ _ Hcase), history_has_no_turn_event.
    reflexivity. }
  split.
  - destruct (agent_call env agent prompt) as [written [response|e]] eqn:Hcall.
    + destruct (run_turn_returns env w agent prompt written response Hc Hp Hcall)
        as (added & Hcase & Hs).
      exists [MessagesAppend (assistant_turn response)].
      unfold after. rewrite Hs. cbn [snd effects]. rewrite !turn_events_app.
      rewrite (init_has_no_turn_event _ _ _ _ _ Hcase), history_has_no_turn_event.
      reflexivity.
    + exists []. now apply (Hraise written e).
  - intros written e Hcall.
    destruct (Hraise written e Hcall) as (Hr & Hlog & Hev).
    repeat split; try assumption.
    rewrite Hlog. apply last_snoc.
Qed.

Lemma user_turn_logged_before_call_witness :
  (exists rest,
     turn_events (effects (after Sample.timeout fresh_process))
     = turn_events (effects fresh_process)
       ++ MessagesAppend (user_turn "X") :: CallAgent Sample.the_agent "X" :: rest)
  /\ last (conversation_log (after Sample.timeout fresh_process)) = Some (user_turn "X").
Proof.
  pose proof (user_turn_logged_before_call Sample.timeout fresh_process
                Sample.the_agent "X" eq_refl eq_refl) as H.
  split; [exact (proj1 H)|].
  exact (proj1 (proj2 (proj2 (proj2 H ["calling backend"] (Exception "backend timeout")
                                eq_refl)))).
Defined.

(** ** Failures of the initializer *)

Lemma client_agent_of_miss (env : Env) (w : World) o added :
  cache_resource w = None -> init_case env o added ->
  client_agent_of env w = o /\
  cached_initialize_client_agent env w
  = (o, set_cache_resource (match o with Returns r => Some r | Raises _ => None end)
          (set_effects (effects w ++ added) w)).
Proof.
  intros Hslot Hinit. unfold client_agent_of.
  destruct (cached_cases env w) as (o' & slot & added' & Hcase & Hw).
  rewrite Hw. cbn [fst].
  inversion Hcase as [r Hs|r a Hs Hi|e a Hs Hi]; subst; [congruence|..];
    destruct (init_case_functional _ _ _ _ _ Hi Hinit) as [<- <-]; auto.
Qed.

Lemma discovered_shows_no_error ts : count is_error (discovered_effects ts) = 0.
Proof. apply blind_count. now apply blind_discovered. Qed.

(** C9: when discovery succeeded with at least one tool and the model
    backend or the agent cannot be built, the exception leaves the
    initializer: the call returns nothing (so neither of the two None
    outcomes), no error line of either report is drawn, nothing is
    memoized, and the run of the script ends with that exception. *)
Theorem construction_failure_propagates
    (env : Env) (w : World) (ts : list Tool) (e : exn) :
  provider_connect env [SUPERVISOR_URL] = Returns ts ->
  ts <> [] ->
  bedrock_init env client_model_id = Some e
  \/ (bedrock_init env client_model_id = None
      /\ agent_init env client_system_prompt ts {| model_id := client_model_id |} = Some e) ->
  fst (initialize_client_agent env w) = Raises e
  /\ count is_error (effects (snd (initialize_client_agent env w)))
     = count is_error (effects w)
  /\ (cache_resource w = None ->
      client_agent_of env w = Raises e
      /\ fst (script env w) = Raises e
      /\ cache_resource (after env w) = None
      /\ count is_error (effects (after env w)) = count is_error (effects w)).
Proof.
  intros Hp Hts Hfail.
  assert (exists added, init_case env (Raises e) added /\ count is_error added = 0)
    as (added & Hinit & Hquiet).
  { destruct Hfail as [Hb|[Hb Ha]].
    - eexists. split; [exact (init_no_backend env ts e Hp Hts Hb)|].
      rewrite !count_app, discovered_shows_no_error. reflexivity.
    - eexists. split; [exact (init_no_agent env ts e Hp Hts Hb Ha)|].
      rewrite !count_app, discovered_shows_no_error. reflexivity. }
  destruct (initialize_cases env w) as (o & added' & Hcase & Hw).
  destruct (init_case_functional _ _ _ _ _ Hcase Hinit) as [-> ->].
  rewrite Hw. cbn [fst snd set_effects effects].
  split; [reflexivity|]. split; [rewrite count_app, Hquiet; lia|].
  intros Hslot.
  destruct (client_agent_of_miss env w _ _ Hslot Hinit) as [Hc _].
  destruct (run_initializer_raises env w e Hc) as (added' & Hinit' & _ & Hs).
  destruct (init_case_functional _ _ _ _ _ Hinit' Hinit) as [_ ->].
  unfold after. rewrite Hs. cbn [fst snd entered cache_resource effects].
  repeat split; try assumption.
  rewrite !count_app, Hquiet. change (count is_error page_effects) with 0. lia.
Qed.

Lemma construction_failure_propagates_witness :
  fst (initialize_client_agent Sample.no_agent fresh_process)
  = Raises (Exception "invalid tool")
  /\ count is_error (effects (snd (initialize_client_agent Sample.no_agent fresh_process)))
     = count is_error (effects fresh_process)
  /\ fst (script Sample.no_agent fresh_process) = Raises (Exception "invalid tool")
  /\ cache_resource (after Sample.no_agent fresh_process) = None.
Proof.
  pose proof (construction_failure_propagates Sample.no_agent fresh_process
                [Sample.search; Sample.summarize] (Exception "invalid tool")
                eq_refl ltac:(discriminate) (or_intror (conj eq_refl eq_refl))) as H.
  destruct H as (H1 & H2 & H3). destruct (H3 eq_refl) as (_ & H4 & H5 & _).
  exact (conj H1 (conj H2 (conj H4 H5))).
Defined.

(** ** No session without tools *)

Lemma blind_weaken (p q : Effect -> bool) l :
  (forall e, p e = true -> q e = true) -> blind q l -> blind p l.
Proof.
  intros Hpq Hq. unfold blind in *. eapply Forall_impl; [exact Hq|].
  intros e He. destruct (p e) eqn:Hpe; [|reflexivity].
  apply Hpq in Hpe. congruence.
Qed.

(** What a run adds to the effects: the page, what the initializer did, and
    then effects that are none of the initializer's. *)
Lemma run_frame (env : Env) (w : World) :
  exists slot added rest,
    cached_case env (cache_resource w) (client_agent_of env w) slot added
    /\ cache_resource (after env w) = slot
    /\ effects (after env w) = effects w ++ page_effects ++ added ++ rest
    /\ blind init_only rest.
Proof.
  unfold after.
  destruct (client_agent_of env w) as [[agent|]|e] eqn:Hc.
  - destruct (prompt_of env) as [prompt|] eqn:Hp.
    + destruct (agent_call env agent prompt) as [written [response|e]] eqn:Hcall.
      * destruct (run_turn_returns env w agent prompt written response Hc Hp Hcall)
          as (added & Hcase & ->).
        exists (Some (Some agent)), added. eexists. repeat split; [exact Hcase|].
        apply blind_app; [now apply blind_history|].
        apply blind_app; repeat constructor.
      * destruct (run_turn_raises env w agent prompt written e Hc Hp Hcall)
          as (added & Hcase & ->).
        exists (Some (Some agent)), added. eexists. repeat split; [exact Hcase|].
        apply blind_app; [now apply blind_history|repeat constructor].
    + destruct (run_no_prompt env w agent Hc Hp) as (added & Hcase & ->).
      exists (Some (Some agent)), added. eexists. repeat split; [exact Hcase|].
      apply blind_app; [now apply blind_history|repeat constructor].
  - destruct (run_unavailable env w Hc) as (added & Hcase & ->).
    exists (Some None), added. eexists. repeat split; [exact Hcase|].
    apply blind_app; [now apply blind_history|repeat constructor].
  - destruct (run_initializer_raises env w e Hc) as (added & Hinit & Hslot & ->).
    exists None, added, []. repeat split.
    + rewrite Hslot. now constructor.
    + cbn. now rewrite app_nil_r.
    + constructor.
Qed.

Lemma cached_case_no_empty_agent env slot o s added :
  cached_case env slot o s added -> blind builds_empty_agent added.
Proof. destruct 1; [constructor|..]; eauto using init_case_no_empty_agent. Qed.

Lemma cached_case_agent_has_tools env slot agent s added :
  (forall a, slot = Some (Some a) -> agent_tools a <> []) ->
  cached_case env slot (Returns (Some agent)) s added -> agent_tools agent <> [].
Proof.
  intros Hslot Hc. inversion Hc; subst; eauto using init_case_agent_has_tools.
Qed.

Lemma sessions_have_tools_run env w :
  sessions_have_tools w -> sessions_have_tools (after env w).
Proof.
  intros [Hslot Heff].
  destruct (run_frame env w) as (slot & added & rest & Hcase & Hs & He & Hrest).
  unfold sessions_have_tools. rewrite Hs, He. split.
  - intros agent ->. inversion Hcase as [r Hr Ho|r a Hn Hi Ho|]; subst.
    + now apply Hslot.
    + exact (init_case_agent_has_tools _ _ _ Hi).
  - apply blind_app; [exact Heff|]. apply blind_app; [repeat constructor|].
    apply blind_app; [exact (cached_case_no_empty_agent _ _ _ _ _ Hcase)|].
    eapply blind_weaken; [|exact Hrest]. now intros [].
Qed.

Lemma sessions_have_tools_steps w w' :
  process_steps w w' -> sessions_have_tools w -> sessions_have_tools w'.
Proof.
  induction 1 as [|w1 w2 w3 _ IH Hstep]; [auto|].
  intros Hw. specialize (IH Hw).
  destruct Hstep as [env w2|m w2]; [now apply sessions_have_tools_run|exact IH].
Qed.

Lemma sessions_have_tools_fresh : sessions_have_tools fresh_process.
Proof. split; [discriminate|constructor]. Qed.

(** C5: in a process started afresh, whenever the slot is empty and
    discovery answers with no tool, the initializer returns None after the
    two lines of the no-tools report (no agent is built, None is what gets
    memoized); and in no run does the script get an agent without tools,
    nor is one ever built. *)
Theorem no_session_without_tools (env : Env) (w : World) :
  process_steps fresh_process w ->
  (cache_resource w = None ->
   provider_connect env [SUPERVISOR_URL] = Returns [] ->
   cached_initialize_client_agent env w
   = (Returns None,
      set_cache_resource (Some None)
        (set_effects (effects w ++ discovery_effects ++ no_tools_report) w)))
  /\ (forall agent,
        client_agent_of env w = Returns (Some agent) -> agent_tools agent <> [])
  /\ blind builds_empty_agent (effects (after env w)).
Proof.
  intros Hreach.
  pose proof (sessions_have_tools_steps _ _ Hreach sessions_have_tools_fresh)
    as Hinv.
  split; [|split].
  - intros Hslot Hp.
    exact (proj2 (client_agent_of_miss env w _ _ Hslot (init_no_tools env Hp))).
  - intros agent Hc.
    destruct (cached_cases env w) as (o & slot & added & Hcase & Hw).
    unfold client_agent_of in Hc. rewrite Hw in Hc. cbn [fst] in Hc. subst o.
    eapply cached_case_agent_has_tools; [exact (proj1 Hinv)|exact Hcase].
  - exact (proj2 (sessions_have_tools_run env w Hinv)).
Qed.

Lemma no_session_without_tools_witness :
  cached_initialize_client_agent Sample.no_capabilities fresh_process
  = (Returns None,
     set_cache_resource (Some None)
       (set_effects (effects fresh_process ++ discovery_effects ++ no_tools_report)
          fresh_process)).
Proof.
  exact (proj1 (no_session_without_tools Sample.no_capabilities fresh_process
                  (steps_refl fresh_process))
           eq_refl eq_refl).
Defined.

(** ** The unavailable state *)

(** A run in the unavailable state: the history and the warning. *)
Lemma unavailable_run (env : Env) (w : World) :
  Unavailable w ->
  script env w
  = (Returns tt,
     {| cache_resource := Some None;
        session_messages := Some (conversation_log w);
        sys_stdout := sys_stdout w;
        streams := streams w;
        effects := effects w ++ page_effects ++ history_effects (conversation_log w)
                   ++ [StWarning unavailable_warning] |}).
Proof.
  intros Hu.
  destruct (run_unavailable env w (client_agent_of_hit env w None Hu))
    as (added & Hcase & ->).
  inversion Hcase as [r Hr|r a Hn|]; subst; [reflexivity|].
  unfold Unavailable in Hu. congruence.
Qed.

Lemma unavailable_run_quiet (env : Env) (w : World) :
  Unavailable w ->
  Unavailable (after env w)
  /\ agent_calls (after env w) = agent_calls w
  /\ chat_inputs (after env w) = chat_inputs w.
Proof.
  intros Hu. unfold after. rewrite (unavailable_run env w Hu).
  unfold Unavailable, agent_calls, chat_inputs. cbn [snd cache_resource effects].
  split; [reflexivity|].
  rewrite !count_app.
  rewrite (blind_count is_agent_call (history_effects _)) by now apply blind_history.
  rewrite (blind_count is_chat_input (history_effects _)) by now apply blind_history.
  change (count is_agent_call page_effects) with 0.
  change (count is_chat_input page_effects) with 0.
  change (count is_agent_call [StWarning unavailable_warning]) with 0.
  change (count is_chat_input [StWarning unavailable_warning]) with 0.
  lia.
Qed.

Lemma unavailable_steps (w w' : World) :
  process_steps w w' -> Unavailable w ->
  Unavailable w' /\ agent_calls w' = agent_calls w /\ chat_inputs w' = chat_inputs w.
Proof.
  induction 1 as [|w1 w2 w3 _ IH Hstep]; [auto|].
  intros Hu. destruct (IH Hu) as (Hu2 & Hcalls & Hinputs).
  destruct Hstep as [env w2|m w2].
  - destruct (unavailable_run_quiet env w2 Hu2) as (? & ? & ?).
    repeat split; [assumption|congruence..].
  - repeat split; assumption.
Qed.

(** C6: when the first initialization fails, by a connection error or by an
    empty tool list, the process is unavailable from then on: whatever runs
    and sessions follow, None stays memoized, the agent is never called and
    the input widget is never drawn; each further run returns after drawing
    the warning and leaves the log as it was. *)
Theorem unavailable_is_terminal (env : Env) (w w' : World) :
  cache_resource w = None ->
  provider_connect env [SUPERVISOR_URL] = Returns []
  \/ (exists d, provider_connect env [SUPERVISOR_URL] = Raises (Exception d)) ->
  process_steps (after env w) w' ->
  Unavailable w'
  /\ agent_calls w' = agent_calls w
  /\ chat_inputs w' = chat_inputs w
  /\ forall env',
       fst (script env' w') = Returns tt
       /\ Unavailable (after env' w')
       /\ conversation_log (after env' w') = conversation_log w'
       /\ last (effects (after env' w')) = Some (StWarning unavailable_warning)
       /\ agent_calls (after env' w') = agent_calls w.
Proof.
  intros Hslot Hfail Hsteps.
  assert (exists added, init_case env (Returns None) added) as (added & Hinit).
  { destruct Hfail as [Hp|[d Hp]]; eexists;
      [exact (init_no_tools env Hp)|exact (init_unreachable env d Hp)]. }
  destruct (client_agent_of_miss env w _ _ Hslot Hinit) as [Hc _].
  destruct (run_unavailable env w Hc) as (added' & Hcase & Hs).
  assert (Unavailable (after env w)
          /\ agent_calls (after env w) = agent_calls w
          /\ chat_inputs (after env w) = chat_inputs w) as (Hu & Hcalls & Hinputs).
  { unfold after. rewrite Hs.
    unfold Unavailable, agent_calls, chat_inputs. cbn [snd cache_resource effects].
    split; [reflexivity|].
    rewrite !count_app.
    rewrite (blind_count is_agent_call (history_effects _)) by now apply blind_history.
    rewrite (blind_count is_chat_input (history_effects _)) by now apply blind_history.
    rewrite (blind_count is_agent_call added')
      by (eapply blind_init; [|exact Hcase]; now intros []).
    rewrite (blind_count is_chat_input added')
      by (eapply blind_init; [|exact Hcase]; now intros []).
    change (count is_agent_call page_effects) with 0.
    change (count is_chat_input page_effects) with 0.
    change (count is_agent_call [StWarning unavailable_warning]) with 0.
    change (count is_chat_input [StWarning unavailable_warning]) with 0.
    lia. }
  destruct (unavailable_steps _ _ Hsteps Hu) as (Hu' & Hcalls' & Hinputs').
  split; [exact Hu'|]. split; [congruence|]. split; [congruence|].
  intros env'.
  destruct (unavailable_run_quiet env' w' Hu') as (Hu'' & Hcalls'' & _).
  unfold after in *. rewrite (unavailable_run env' w' Hu') in *.
  cbn [fst snd] in *.
  split; [reflexivity|]. split; [exact Hu''|]. split; [reflexivity|].
  split; [|congruence].
  cbn [effects]. rewrite !app_assoc. apply last_snoc.
Qed.

Lemma unavailable_is_terminal_witness :
  Unavailable (after Sample.good (after Sample.unreachable fresh_process))
  /\ agent_calls (after Sample.good (after Sample.unreachable fresh_process))
     = agent_calls fresh_process
  /\ chat_inputs (after Sample.good (after Sample.unreachable fresh_process))
     = chat_inputs fresh_process.
Proof.
  pose proof (unavailable_is_terminal Sample.unreachable fresh_process
                (after Sample.good (after Sample.unreachable fresh_process))
                eq_refl
                (or_intror (ex_intro _ "connection refused" eq_refl))
                (steps_then _ _ _ (steps_refl _) (step_rerun Sample.good _))) as H.
  exact (conj (proj1 H) (conj (proj1 (proj2 H)) (proj1 (proj2 (proj2 H))))).
Defined.

(** ** The shape of the log *)

Lemma alternating_roles_snoc n :
  alternating_roles (S n) = alternating_roles n ++ ["user"; "assistant"].
Proof.
  induction n as [|n IH]; [reflexivity|].
  cbn [alternating_roles app] in *. do 2 f_equal. exact IH.
Qed.

Lemma alternating_roles_length n : length (alternating_roles n) = 2 * n.
Proof. induction n as [|n IH]; cbn [alternating_roles length]; lia. Qed.

(** What a run does to the log: a completed turn appends a user entry and
    an assistant entry, an aborted turn a user entry, any other run
    nothing. *)
Lemma run_log (env : Env) (w : World) :
  (completes_turn env w = true /\ aborts_turn env w = false
   /\ exists prompt response,
        conversation_log (after env w)
        = conversation_log w ++ [user_turn prompt; assistant_turn response])
  \/ (completes_turn env w = false /\ aborts_turn env w = true
      /\ exists prompt,
           conversation_log (after env w) = conversation_log w ++ [user_turn prompt])
  \/ (completes_turn env w = false /\ aborts_turn env w = false
      /\ conversation_log (after env w) = conversation_log w).
Proof.
  unfold completes_turn, aborts_turn, is_turn, after.
  destruct (client_agent_of env w) as [[agent|]|e] eqn:Hc.
  - destruct (prompt_of env) as [prompt|] eqn:Hp.
    + destruct (agent_call env agent prompt) as [written [response|e]] eqn:Hcall.
      * destruct (run_turn_returns env w agent prompt written response Hc Hp Hcall)
          as (added & _ & ->).
        left. repeat split. now exists prompt, response.
      * destruct (run_turn_raises env w agent prompt written e Hc Hp Hcall)
          as (added & _ & ->).
        right; left. repeat split. now exists prompt.
    + destruct (run_no_prompt env w agent Hc Hp) as (added & _ & ->).
      right; right. now repeat split.
  - destruct (run_unavailable env w Hc) as (added & _ & ->).
    right; right. now repeat split.
  - destruct (run_initializer_raises env w e Hc) as (added & _ & _ & ->).
    right; right. now repeat split.
Qed.

Lemma reruns_alternate (envs : list Env) (w : World) (n : nat) :
  role <$> conversation_log w = alternating_roles n ->
  no_turn_aborted envs w = true ->
  role <$> conversation_log (reruns envs w)
  = alternating_roles (n + completed_turns envs w).
Proof.
  revert w n. induction envs as [|env envs IH]; intros w n Hlog Hok.
  - cbn. now rewrite Nat.add_0_r.
  - cbn [no_turn_aborted] in Hok. apply andb_prop in Hok as [Hrun Hrest].
    change (reruns (env :: envs) w) with (reruns envs (after env w)).
    cbn [completed_turns].
    destruct (run_log env w)
      as [(-> & _ & prompt & response & Hafter)
         |[(_ & Habort & _)|(-> & _ & Hafter)]].
    + replace (n + (1 + completed_turns envs (after env w)))
        with (S n + completed_turns envs (after env w)) by lia.
      apply IH; [|exact Hrest].
      rewrite Hafter, fmap_app, Hlog, alternating_roles_snoc. reflexivity.
    + rewrite Habort in Hrun. discriminate.
    + apply IH; [|exact Hrest]. now rewrite Hafter.
Qed.

(** C4, as stated, fails: a turn aborted by "backend timeout" followed by a
    completed turn leaves, after one completed turn, three entries with
    roles user, user, assistant. *)
Lemma aborted_turn_breaks_alternation :
  completed_turns [Sample.timeout; Sample.good] fresh_process = 1
  /\ role <$> conversation_log (reruns [Sample.timeout; Sample.good] fresh_process)
     = ["user"; "user"; "assistant"]
  /\ ~ two_entries_per_completed_turn [Sample.timeout; Sample.good].
Proof.
  split; [reflexivity|]. split; [reflexivity|].
  unfold two_entries_per_completed_turn.
  change (length (conversation_log (reruns [Sample.timeout; Sample.good] fresh_process)))
    with 3.
  change (completed_turns [Sample.timeout; Sample.good] fresh_process) with 1.
  lia.
Qed.

(** C4, amended: starting from an empty log, after any reruns none of which
    is an aborted turn, [N] of them completed turns, the log has exactly
    [2 N] entries, and their roles are user, assistant, user, assistant,
    ... *)
Theorem log_alternates (envs : list Env) (w : World) :
  conversation_log w = [] ->
  no_turn_aborted envs w = true ->
  length (conversation_log (reruns envs w)) = 2 * completed_turns envs w
  /\ role <$> conversation_log (reruns envs w)
     = alternating_roles (completed_turns envs w).
Proof.
  intros Hempty Hok.
  assert (role <$> conversation_log (reruns envs w)
          = alternating_roles (completed_turns envs w)) as Hroles.
  { apply (reruns_alternate envs w 0); [now rewrite Hempty|exact Hok]. }
  split; [|exact Hroles].
  rewrite <- (length_fmap role), Hroles. apply alternating_roles_length.
Qed.

Lemma log_alternates_witness :
  length (conversation_log
            (reruns [Sample.no_backend; Sample.good; Sample.idle; Sample.good; Sample.good]
               fresh_process))
  = 6
  /\ role <$> conversation_log
                (reruns [Sample.no_backend; Sample.good; Sample.idle; Sample.good; Sample.good]
                   fresh_process)
     = ["user"; "assistant"; "user"; "assistant"; "user"; "assistant"].
Proof.
  exact (log_alternates
           [Sample.no_backend; Sample.good; Sample.idle; Sample.good; Sample.good]
           fresh_process eq_refl eq_refl).
Defined.

(** ** Turns that overlap *)

(** The handler is its prologue, the writes of the agent and its epilogue,
    one after the other. *)
Lemma handle_prompt_in_phases (env : Env) (agent : Agent) (prompt : string)
    (w : World) :
  handle_prompt env agent prompt w
  = (captured <- turn_prologue agent prompt ;;
     for_each stdout_write (fst (agent_call env agent prompt)) ;;
     match snd (agent_call env agent prompt) with
     | Returns r => turn_epilogue captured r
     | Raises e => raise e
     end) w.
Proof.
  destruct w as [c [log|] h ss es]; [|reflexivity].
  unfold handle_prompt, turn_prologue, turn_epilogue, call_agent, messages_append.
  unfold bind, get_messages, emit, get_sys_stdout, new_StringIO, put_sys_stdout, ret,
    set_effects, set_session_messages, set_streams, set_sys_stdout; cbn.
  destruct (for_each stdout_write _ _) as [[[]|e] w']; [|reflexivity].
  destruct (snd (agent_call env agent prompt)); reflexivity.
Qed.

Lemma own_session_kept (w : World) :
  set_session_messages (session_messages w) w = w.
Proof. now destruct w. Qed.

(** The writes of a turn that nothing interrupts are those of the loop of
    [call_agent]. *)
Lemma advance_through_writes (l : list string) (t : Turn) (w : World)
    (captured : nat * nat) :
  turn_phase t = Running captured ->
  turn_writes t = l ->
  turn_session t = session_messages w ->
  Nat.iter (length l) (fun p => advance (fst p) (snd p)) (t, w)
  = (moved t [] (Running captured) (snd (for_each stdout_write l w)),
     snd (for_each stdout_write l w)).
Proof.
  revert t w. induction l as [|s l IH]; intros t w Hphase Hwrites Hsession.
  - cbn. destruct t; cbn in *; subst. reflexivity.
  - cbn [length]. rewrite Nat.iter_succ_r. cbn [fst snd].
    unfold advance at 2. rewrite Hphase, Hwrites, Hsession, own_session_kept.
    rewrite IH by reflexivity.
    reflexivity.
Qed.

Lemma turn_prologue_spec (agent : Agent) (prompt : string) (log : list Message)
    (w : World) :
  session_messages w = Some log ->
  turn_prologue agent prompt w
  = (Returns (sys_stdout w, length (streams w)),
     {| cache_resource := cache_resource w;
        session_messages := Some (log ++ [user_turn prompt]);
        sys_stdout := length (streams w);
        streams := streams w ++ [""];
        effects := effects w ++ tail (call_effects agent prompt) |}).
Proof.
  destruct w as [c m h ss es]; cbn. intros ->.
  unfold turn_prologue, messages_append, bind, get_messages, emit, get_sys_stdout,
    new_StringIO, put_sys_stdout, ret, set_effects, set_session_messages, set_streams,
    set_sys_stdout; cbn.
  repeat (rewrite <- ?app_assoc; cbn [app]). reflexivity.
Qed.

Lemma turn_epilogue_spec (captured : nat * nat) (response trace : string)
    (log : list Message) (w : World) :
  session_messages w = Some log ->
  streams w !! snd captured = Some trace ->
  turn_epilogue captured response w
  = (Returns tt,
     {| cache_resource := cache_resource w;
        session_messages := Some (log ++ [assistant_turn response]);
        sys_stdout := fst captured;
        streams := streams w;
        effects := effects w ++ answer_effects trace response |}).
Proof.
  destruct w as [c m h ss es]; cbn. intros -> Htrace.
  unfold turn_epilogue, messages_append, bind, get_messages, emit, getvalue,
    put_sys_stdout, set_effects, set_session_messages, set_streams, set_sys_stdout; cbn.
  rewrite Htrace; cbn.
  repeat (rewrite <- ?app_assoc; cbn [app]). reflexivity.
Qed.

(** A turn that runs on its own does what the handler does: the steps
    above cut the handler, they do not change it. *)
Lemma turn_alone (env : Env) (agent : Agent) (prompt : string)
    (written : list string) (response : string) (log : list Message) (w : World) :
  session_messages w = Some log ->
  agent_call env agent prompt = (written, Returns response) ->
  snd (alone {| turn_session := Some log;
                turn_agent := agent;
                turn_prompt := prompt;
                turn_writes := written;
                turn_response := response;
                turn_phase := Waiting |} w)
  = snd (handle_prompt env agent prompt w).
Proof.
  intros Hlog Hcall.
  rewrite (handle_prompt_returns env agent prompt written response log w Hlog Hcall).
  unfold alone. cbn [turn_writes Nat.add].
  remember (fun p : Turn * World => advance (fst p) (snd p)) as f eqn:Hf.
  rewrite Nat.iter_succ, Nat.iter_succ_r.
  assert (forall t w0, f (t, w0) = advance t w0) as Hstep by (now subst f).
  rewrite (Hstep _ w). unfold advance at 1.
  cbn [turn_phase turn_session turn_agent turn_prompt turn_writes].
  rewrite <- Hlog at 1. rewrite own_session_kept.
  rewrite (turn_prologue_spec agent prompt log w Hlog).
  subst f.
  rewrite (advance_through_writes written _ _ (sys_stdout w, length (streams w)))
    by reflexivity.
  rewrite for_each_stdout_write. cbn [snd fst set_streams streams sys_stdout].
  rewrite fresh_stream_written.
  unfold advance. cbn [moved turn_phase turn_writes turn_session turn_response snd fst
                         session_messages set_session_messages cache_resource sys_stdout
                         streams effects].
  erewrite turn_epilogue_spec; [|reflexivity|apply lookup_fresh_stream].
  unfold set_session_messages, set_streams.
  cbn [snd fst cache_resource session_messages sys_stdout streams effects].
  repeat (rewrite <- ?app_assoc; cbn [app]). reflexivity.
Qed.

(** C3, as stated, fails for turns that overlap: with the schedule of
    [Overlap], both calls return, yet the trace shown for the first call
    lacks its second write, the trace shown for the second call holds a
    write of the first and lacks its own second write, which went to the
    stream the process inherited, and [sys.stdout] ends bound to the
    buffer of the first turn. *)
Lemma overlapping_turns_share_stdout :
  turn_phase (fst (fst Overlap.outcome)) = Finished
  /\ turn_phase (snd (fst Overlap.outcome)) = Finished
  /\ traces_shown (effects (after Sample.idle fresh_process)) = []
  /\ traces_shown (effects (snd Overlap.outcome)) = ["A1"; "B1A2"]
  /\ text ["A1"; "A2"] = "A1A2"
  /\ text ["B1"; "B2"] = "B1B2"
  /\ ~ text ["B1"; "B2"] ∈ traces_shown (effects (snd Overlap.outcome))
  /\ streams (after Sample.idle fresh_process) !! 0 = Some ""
  /\ streams (snd Overlap.outcome) !! 0 = Some "B2"
  /\ sys_stdout (after Sample.idle fresh_process) = 0
  /\ sys_stdout (snd Overlap.outcome) = 1.
Proof.
  repeat split; try reflexivity.
  change (traces_shown (effects (snd Overlap.outcome))) with ["A1"; "B1A2"].
  change (text ["B1"; "B2"]) with "B1B2".
  intros Hin.
  apply elem_of_cons in Hin as [Hin|Hin]; [discriminate|].
  apply elem_of_cons in Hin as [Hin|Hin]; [discriminate|].
  now apply elem_of_nil in Hin.
Qed.

(** * Further properties of the script *)

(** ** What one run does to the streams, the log and the counters *)



(** ** The binding of [sys.stdout] *)





(** ** The memoized slot across runs and sessions *)

Lemma cached_case_discoveries env slot o s added :
  cached_case env slot o s added ->
  count is_discovery added = match slot with None => 1 | Some _ => 0 end.
Proof.
  destruct 1 as [r ->|r added -> Hinit|e added -> Hinit];
    [reflexivity|exact (init_case_discovers_once _ _ _ Hinit)..].
Qed.

Lemma run_discoveries (env : Env) (w : World) :
  discoveries (after env w)
  = discoveries w + match cache_resource w with None => 1 | Some _ => 0 end.
Proof.
  destruct (run_frame env w) as (slot & added & rest & Hcase & _ & He & Hrest).
  unfold discoveries. rewrite He, !count_app.
  rewrite (cached_case_discoveries _ _ _ _ _ Hcase).
  rewrite (blind_count is_discovery rest)
    by (eapply blind_weaken; [|exact Hrest]; now intros []).
  change (count is_discovery page_effects) with 0. lia.
Qed.

Lemma slot_kept_run (env : Env) (w : World) r :
  cache_resource w = Some r -> cache_resource (after env w) = Some r.
Proof.
  intros Hslot.
  destruct (run_frame env w) as (slot & added & rest & Hcase & <- & _).
  rewrite (client_agent_of_hit env w r Hslot), Hslot in Hcase.
  inversion Hcase; subst; congruence.
Qed.

(** Once a call of the initializer has returned, what it returned (an
    agent or None) stays memoized for the rest of the process: no rerun,
    aborted turn or change of session replaces it, and discovery is never
    attempted again. *)
Theorem slot_filled_for_good (w w' : World) (r : option Agent) :
  cache_resource w = Some r ->
  process_steps w w' ->
  cache_resource w' = Some r /\ discoveries w' = discoveries w.
Proof.
  intros Hslot Hsteps.
  induction Hsteps as [|w1 w2 w3 _ IH Hstep]; [auto|].
  destruct (IH Hslot) as [Hslot2 Hd].
  destruct Hstep as [env w2|m w2]; [|now split].
  split; [now apply slot_kept_run|].
  rewrite run_discoveries, Hslot2. lia.
Qed.

Lemma slot_filled_for_good_witness :
  cache_resource
    (set_session_messages None (after Sample.timeout (after Sample.good fresh_process)))
  = Some (Some Sample.the_agent)
  /\ discoveries
       (set_session_messages None (after Sample.timeout (after Sample.good fresh_process)))
     = discoveries (after Sample.good fresh_process).
Proof.
  exact (slot_filled_for_good (after Sample.good fresh_process)
           (set_session_messages None (after Sample.timeout (after Sample.good fresh_process)))
           (Some Sample.the_agent) eq_refl
           (steps_then _ _ _
              (steps_then _ _ _ (steps_refl _) (step_rerun Sample.timeout _))
              (step_session None _))).
Defined.

Lemma count_cons p e l :
  count p (e :: l) = (if p e then 1 else 0) + count p l.
Proof.
  unfold count. rewrite filter_cons. destruct (p e); [reflexivity|].
  now destruct (decide (false = true)).
Qed.

Lemma init_case_builds_at_most_one_agent env o added :
  init_case env o added -> count is_agent_construction added <= 1.
Proof.
  assert (forall ts, count is_agent_construction (discovered_effects ts) = 0) as Hd.
  { intros ts. apply blind_count. now apply blind_discovered. }
  destruct 1; rewrite ?count_app, ?Hd;
    unfold discovery_effects, connection_error_report, no_tools_report;
    rewrite ?count_cons; cbn [is_agent_construction];
    change (count is_agent_construction []) with 0; lia.
Qed.

(** A run of the script attempts discovery exactly once when it finds the
    slot empty (also when the attempt fails, finds no tool, or the run is
    ended by an exception of a constructor), and not at all when the slot
    is filled; the same bounds the agents it builds. *)
Theorem one_discovery_per_empty_slot (env : Env) (w : World) :
  discoveries (after env w)
  = discoveries w + (if bool_decide (cache_resource w = None) then 1 else 0)
  /\ count is_agent_construction (effects (after env w))
     <= count is_agent_construction (effects w)
        + (if bool_decide (cache_resource w = None) then 1 else 0).
Proof.
  split.
  - rewrite run_discoveries. now destruct (cache_resource w).
  - destruct (run_frame env w) as (slot & added & rest & Hcase & _ & He & Hrest).
    rewrite He, !count_app.
    rewrite (blind_count _ rest)
      by (eapply blind_weaken; [|exact Hrest]; now intros []).
    change (count is_agent_construction page_effects) with 0.
    destruct Hcase as [r Hr|r added Hr Hinit|e added Hr Hinit]; rewrite Hr;
      cbn [bool_decide];
      [change (count is_agent_construction []) with 0; cbn; lia|..];
      pose proof (init_case_builds_at_most_one_agent _ _ _ Hinit); cbn; lia.
Qed.

(** ** Calls of the agent *)

(** A run calls the agent exactly once when it is a turn (the script has
    an agent and the user typed a non-empty prompt), whether the call
    returns or raises, and never otherwise. *)
Theorem one_call_per_turn (env : Env) (w : World) :
  agent_calls (after env w) = agent_calls w + (if is_turn env w then 1 else 0).
Proof.
  assert (forall slot o s added log,
            cached_case env slot o s added ->
            count is_agent_call (page_effects ++ added ++ history_effects log) = 0)
    as Hquiet.
  { intros slot o s added log Hcase. rewrite !count_app.
    rewrite (blind_count is_agent_call added)
      by (eapply blind_init; [|exact Hcase]; now intros []).
    rewrite (blind_count is_agent_call (history_effects log))
      by now apply blind_history.
    reflexivity. }
  unfold agent_calls, is_turn, after.
  destruct (client_agent_of env w) as [[agent|]|e] eqn:Hc.
  - destruct (prompt_of env) as [prompt|] eqn:Hp.
    + destruct (agent_call env agent prompt) as [written [response|e]] eqn:Hcall.
      * destruct (run_turn_returns env w agent prompt written response Hc Hp Hcall)
          as (added & Hcase & ->).
        cbn [snd effects]. rewrite !app_assoc, count_app, count_app, <- !app_assoc.
        rewrite count_app, (Hquiet _ _ _ _ _ Hcase).
        unfold call_effects, answer_effects. rewrite !count_cons. cbn. lia.
      * destruct (run_turn_raises env w agent prompt written e Hc Hp Hcall)
          as (added & Hcase & ->).
        cbn [snd effects]. rewrite !app_assoc, count_app, <- !app_assoc.
        rewrite count_app, (Hquiet _ _ _ _ _ Hcase).
        unfold call_effects. rewrite !count_cons. cbn. lia.
    + destruct (run_no_prompt env w agent Hc Hp) as (added & Hcase & ->).
      cbn [snd effects]. rewrite !app_assoc, count_app, <- !app_assoc.
      rewrite count_app, (Hquiet _ _ _ _ _ Hcase). rewrite !count_cons. cbn. lia.
  - destruct (run_unavailable env w Hc) as (added & Hcase & ->).
    cbn [snd effects]. rewrite !app_assoc, count_app, <- !app_assoc.
    rewrite count_app, (Hquiet _ _ _ _ _ Hcase). rewrite !count_cons. cbn. lia.
  - destruct (run_initializer_raises env w e Hc) as (added & Hinit & Hslot & ->).
    cbn [snd effects entered]. rewrite !count_app.
    rewrite (blind_count is_agent_call added).
    + change (count is_agent_call page_effects) with 0. lia.
    + eapply blind_init; [|exact (cached_raise env None e added eq_refl Hinit)].
      now intros [].
Qed.

(** ** The log across reruns *)

(** Over any reruns of a session the log only grows, by two entries for
    each completed turn and one for each aborted turn: what it held stays
    in front, and runs without a prompt, without an agent or ended by the
    initializer add nothing. *)
Theorem log_append_only (envs : list Env) (w : World) :
  conversation_log w `prefix_of` conversation_log (reruns envs w)
  /\ length (conversation_log (reruns envs w))
     = length (conversation_log w)
       + 2 * completed_turns envs w + aborted_turns envs w.
Proof.
  revert w. induction envs as [|env envs IH]; intros w.
  - split; [reflexivity|]. cbn. lia.
  - change (reruns (env :: envs) w) with (reruns envs (after env w)).
    destruct (IH (after env w)) as [Hpre Hlen].
    cbn [completed_turns aborted_turns]. rewrite Hlen.
    destruct (run_log env w)
      as [(-> & -> & p & r & Hafter)|[(-> & -> & p & Hafter)|(-> & -> & Hafter)]];
      rewrite Hafter in Hpre |- *; rewrite ?length_app; cbn [length].
    + split; [|lia]. etrans; [|exact Hpre]. now eexists.
    + split; [|lia]. etrans; [|exact Hpre]. now eexists.
    + split; [exact Hpre|lia].
Qed.

(** ** What the page draws *)

Lemma messages_drawn_app l1 l2 :
  messages_drawn (l1 ++ l2) = messages_drawn l1 ++ messages_drawn l2.
Proof. apply omap_app. Qed.

Lemma messages_drawn_history log : messages_drawn (history_effects log) = log.
Proof.
  induction log as [|[r c] log IH]; [reflexivity|].
  cbn. f_equal. exact IH.
Qed.

Lemma messages_drawn_init env slot o s added :
  cached_case env slot o s added -> messages_drawn added = [].
Proof.
  intros Hcase. apply cached_case_init_only in Hcase.
  induction Hcase as [|e l He _ IH]; [reflexivity|].
  destruct e; try discriminate; exact IH.
Qed.

(** In every run that returns, the texts the page draws with [st.markdown]
    inside chat messages, each with the role of its chat message, are
    exactly the entries of the log as it stands when the run ends, in
    order: the whole history first, then the two entries of this run's
    turn. *)
Theorem page_draws_the_log (env : Env) (w : World) :
  returned (fst (script env w)) = true ->
  messages_drawn (effects (after env w))
  = messages_drawn (effects w) ++ conversation_log (after env w).
Proof.
  unfold after.
  destruct (client_agent_of env w) as [[agent|]|e] eqn:Hc.
  - destruct (prompt_of env) as [prompt|] eqn:Hp.
    + destruct (agent_call env agent prompt) as [written [response|e]] eqn:Hcall.
      * destruct (run_turn_returns env w agent prompt written response Hc Hp Hcall)
          as (added & Hcase & ->).
        intros _. cbn [snd effects conversation_log session_messages default].
        rewrite !messages_drawn_app, (messages_drawn_init _ _ _ _ _ Hcase),
          messages_drawn_history.
        reflexivity.
      * destruct (run_turn_raises env w agent prompt written e Hc Hp Hcall)
          as (added & Hcase & ->).
        discriminate.
    + destruct (run_no_prompt env w agent Hc Hp) as (added & Hcase & ->).
      intros _. cbn [snd effects conversation_log session_messages default].
      rewrite !messages_drawn_app, (messages_drawn_init _ _ _ _ _ Hcase),
        messages_drawn_history.
      cbn. now rewrite app_nil_r.
  - destruct (run_unavailable env w Hc) as (added & Hcase & ->).
    intros _. cbn [snd effects conversation_log session_messages default].
    rewrite !messages_drawn_app, (messages_drawn_init _ _ _ _ _ Hcase),
      messages_drawn_history.
    cbn. now rewrite app_nil_r.
  - destruct (run_initializer_raises env w e Hc) as (added & _ & _ & ->).
    discriminate.
Qed.

Lemma page_draws_the_log_witness :
  messages_drawn (effects (after Sample.good (after Sample.good fresh_process)))
  = messages_drawn (effects (after Sample.good fresh_process))
    ++ conversation_log (after Sample.good (after Sample.good fresh_process)).
Proof.
  exact (page_draws_the_log Sample.good (after Sample.good fresh_process) eq_refl).
Defined.

(** ** Where exceptions come from *)

(** Whatever ends a run of the script with an exception was raised by a
    collaborator: the provider's constructor (and then it is not an
    [Exception], those are caught), the model's or the agent's
    constructor, or the call of the agent.  The script's own steps (the
    session state, the streams) never raise. *)
Theorem script_raises_only_what_it_calls (env : Env) (w : World) (e : exn) :
  fst (script env w) = Raises e ->
  (exists d, e = BaseException d
             /\ provider_connect env [SUPERVISOR_URL] = Raises (BaseException d))
  \/ bedrock_init env client_model_id = Some e
  \/ (exists ts, agent_init env client_system_prompt ts {| model_id := client_model_id |}
                 = Some e)
  \/ (exists agent prompt, snd (agent_call env agent prompt) = Raises e).
Proof.
  destruct (client_agent_of env w) as [[agent|]|e'] eqn:Hc.
  - destruct (prompt_of env) as [prompt|] eqn:Hp.
    + destruct (agent_call env agent prompt) as [written [response|e']] eqn:Hcall.
      * destruct (run_turn_returns env w agent prompt written response Hc Hp Hcall)
          as (added & _ & ->).
        discriminate.
      * destruct (run_turn_raises env w agent prompt written e' Hc Hp Hcall)
          as (added & _ & ->).
        intros [= <-]. right; right; right. exists agent, prompt. now rewrite Hcall.
    + destruct (run_no_prompt env w agent Hc Hp) as (added & _ & ->). discriminate.
  - destruct (run_unavailable env w Hc) as (added & _ & ->). discriminate.
  - destruct (run_initializer_raises env w e' Hc) as (added & Hinit & _ & ->).
    intros [= <-].
    inversion Hinit; subst; [left|right; left|right; right; left]; eauto.
Qed.

Lemma script_raises_only_what_it_calls_witness :
  (exists d, Exception "backend timeout" = BaseException d
             /\ provider_connect Sample.timeout [SUPERVISOR_URL] = Raises (BaseException d))
  \/ bedrock_init Sample.timeout client_model_id = Some (Exception "backend timeout")
  \/ (exists ts, agent_init Sample.timeout client_system_prompt ts
                   {| model_id := client_model_id |}
                 = Some (Exception "backend timeout"))
  \/ (exists agent prompt,
        snd (agent_call Sample.timeout agent prompt) = Raises (Exception "backend timeout")).
Proof.
  exact (script_raises_only_what_it_calls Sample.timeout fresh_process
           (Exception "backend timeout") eq_refl).
Defined.

(** ** Runs without a prompt *)

(** With an agent at hand, a run in which the input widget hands over
    nothing, or the empty string, is no turn: the script returns after
    drawing the widget, the log keeps its entries, nothing is appended,
    the agent is not called, and the streams and [sys.stdout] are as
    before. *)
Theorem empty_prompt_is_no_turn (env : Env) (w : World) (agent : Agent) :
  client_agent_of env w = Returns (Some agent) ->
  chat_input env chat_placeholder = None
  \/ chat_input env chat_placeholder = Some "" ->
  fst (script env w) = Returns tt
  /\ session_messages (after env w) = Some (conversation_log w)
  /\ turn_events (effects (after env w)) = turn_events (effects w)
  /\ streams (after env w) = streams w
  /\ sys_stdout (after env w) = sys_stdout w
  /\ last (effects (after env w)) = Some (StChatInput chat_placeholder).
Proof.
  intros Hc Hin.
  assert (prompt_of env = None) as Hp.
  { unfold prompt_of. now destruct Hin as [-> | ->]. }
  destruct (run_no_prompt env w agent Hc Hp) as (added & Hcase & Hs).
  unfold after. rewrite Hs. cbn [fst snd session_messages streams sys_stdout effects].
  repeat split.
  - rewrite !turn_events_app.
    rewrite (init_has_no_turn_event _ _ _ _ _ Hcase), history_has_no_turn_event.
    cbn. now rewrite app_nil_r.
  - rewrite !app_assoc. apply last_snoc.
Qed.

Lemma empty_prompt_is_no_turn_witness :
  fst (script
         {| provider_connect := provider_connect Sample.good;
            bedrock_init := bedrock_init Sample.good;
            agent_init := agent_init Sample.good;
            agent_call := agent_call Sample.good;
            chat_input := fun _ => Some "" |}
         fresh_process)
  = Returns tt.
Proof.
  exact (proj1 (empty_prompt_is_no_turn
                  {| provider_connect := provider_connect Sample.good;
                     bedrock_init := bedrock_init Sample.good;
                     agent_init := agent_init Sample.good;
                     agent_call := agent_call Sample.good;
                     chat_input := fun _ => Some "" |}
                  fresh_process Sample.the_agent eq_refl (or_intror eq_refl))).
Defined.

(** ** The three ways the initializer ends without an agent or with one *)

Lemma errors_drawn_app l1 l2 :
  errors_drawn (l1 ++ l2) = errors_drawn l1 ++ errors_drawn l2.
Proof. apply omap_app. Qed.

Lemma errors_drawn_history log : errors_drawn (history_effects log) = [].
Proof. induction log as [|m log IH]; [reflexivity|exact IH]. Qed.

Lemma logged_app l1 l2 : logged (l1 ++ l2) = logged l1 ++ logged l2.
Proof. apply omap_app. Qed.

Lemma logged_discovered ts :
  logged (discovered_effects ts)
  = "Successfully discovered the following capabilities:"
    :: map (fun t => "- " +:+ tool_name t) ts.
Proof.
  unfold discovered_effects. cbn. f_equal.
  induction ts as [|t ts IH]; [reflexivity|]. cbn. now rewrite IH.
Qed.

Lemma errors_drawn_discovered ts : errors_drawn (discovered_effects ts) = [].
Proof.
  unfold discovered_effects. cbn.
  induction ts as [|t ts IH]; [reflexivity|exact IH].
Qed.

(** When the slot is empty and the provider's constructor raises an
    [Exception], the run does not fail: the page draws the three error
    lines, the last one with the text of the exception, then the history
    and the warning; None is memoized, and neither the model nor the agent
    is built. *)
Theorem connection_failure_is_reported (env : Env) (w : World) (d : string) :
  cache_resource w = None ->
  provider_connect env [SUPERVISOR_URL] = Raises (Exception d) ->
  fst (script env w) = Returns tt
  /\ errors_drawn (effects (after env w))
     = errors_drawn (effects w)
       ++ [ "Failed to connect to Supervisor Agent at http://localhost:5000.";
            "Please ensure supervisor_agent.py is running.";
            "Details: " +:+ d ]
  /\ cache_resource (after env w) = Some None
  /\ last (effects (after env w)) = Some (StWarning unavailable_warning)
  /\ count is_agent_construction (effects (after env w))
     = count is_agent_construction (effects w).
Proof.
  intros Hslot Hp.
  pose proof (init_unreachable env d Hp) as Hinit.
  destruct (client_agent_of_miss env w _ _ Hslot Hinit) as [Hc _].
  destruct (run_unavailable env w Hc) as (added & Hcase & Hs).
  assert (added = discovery_effects ++ connection_error_report (Exception d)) as ->.
  { inversion Hcase as [|r a Hn Hi|]; subst; [congruence|].
    exact (proj2 (init_case_functional _ _ _ _ _ Hi Hinit)). }
  unfold after. rewrite Hs. cbn [fst snd cache_resource effects].
  repeat split.
  - rewrite !errors_drawn_app, errors_drawn_history. cbn. rewrite ?app_nil_r. reflexivity.
  - rewrite !app_assoc. apply last_snoc.
  - rewrite !count_app.
    rewrite (blind_count is_agent_construction (history_effects _))
      by now apply blind_history.
    unfold discovery_effects, connection_error_report, page_effects.
    rewrite !count_cons. cbn. lia.
Qed.

Lemma connection_failure_is_reported_witness :
  fst (script Sample.unreachable fresh_process) = Returns tt
  /\ errors_drawn (effects (after Sample.unreachable fresh_process))
     = errors_drawn (effects fresh_process)
       ++ [ "Failed to connect to Supervisor Agent at http://localhost:5000.";
            "Please ensure supervisor_agent.py is running.";
            "Details: " +:+ "connection refused" ].
Proof.
  pose proof (connection_failure_is_reported Sample.unreachable fresh_process
                "connection refused" eq_refl eq_refl) as H.
  exact (conj (proj1 H) (proj1 (proj2 H))).
Defined.

(** An exception of the provider's constructor that is not an [Exception]
    is not caught by line 47: it ends the run, no error line is drawn,
    nothing is memoized (the next run will discover again), and the
    session state is not touched. *)
Theorem interrupt_is_not_caught (env : Env) (w : World) (d : string) :
  cache_resource w = None ->
  provider_connect env [SUPERVISOR_URL] = Raises (BaseException d) ->
  fst (script env w) = Raises (BaseException d)
  /\ errors_drawn (effects (after env w)) = errors_drawn (effects w)
  /\ cache_resource (after env w) = None
  /\ session_messages (after env w) = session_messages w.
Proof.
  intros Hslot Hp.
  pose proof (init_interrupted env d Hp) as Hinit.
  destruct (client_agent_of_miss env w _ _ Hslot Hinit) as [Hc _].
  destruct (run_initializer_raises env w _ Hc) as (added & Hinit' & _ & Hs).
  destruct (init_case_functional _ _ _ _ _ Hinit' Hinit) as [_ ->].
  unfold after. rewrite Hs. cbn [fst snd entered cache_resource effects session_messages].
  repeat split.
  rewrite !errors_drawn_app. cbn. rewrite ?app_nil_r. reflexivity.
Qed.

Lemma interrupt_is_not_caught_witness :
  fst (script
         {| provider_connect := fun _ => Raises (BaseException "KeyboardInterrupt");
            bedrock_init := bedrock_init Sample.good;
            agent_init := agent_init Sample.good;
            agent_call := agent_call Sample.good;
            chat_input := chat_input Sample.good |}
         fresh_process)
  = Raises (BaseException "KeyboardInterrupt").
Proof.
  exact (proj1 (interrupt_is_not_caught
                  {| provider_connect := fun _ => Raises (BaseException "KeyboardInterrupt");
                     bedrock_init := bedrock_init Sample.good;
                     agent_init := agent_init Sample.good;
                     agent_call := agent_call Sample.good;
                     chat_input := chat_input Sample.good |}
                  fresh_process "KeyboardInterrupt" eq_refl eq_refl)).
Defined.

(** When the slot is empty, discovery finds at least one tool and both
    constructors succeed, the initializer returns, and memoizes, the agent
    built from exactly the discovered tools, the fixed model id and the
    fixed system prompt; the logger gets one line for each tool, in the
    order of discovery, and no error line is drawn. *)
Theorem initialization_builds_the_agent (env : Env) (w : World) (ts : list Tool) :
  cache_resource w = None ->
  provider_connect env [SUPERVISOR_URL] = Returns ts ->
  ts <> [] ->
  bedrock_init env client_model_id = None ->
  agent_init env client_system_prompt ts {| model_id := client_model_id |} = None ->
  client_agent_of env w
  = Returns (Some {| system_prompt := client_system_prompt;
                     agent_tools := ts;
                     model := {| model_id := client_model_id |} |})
  /\ cache_resource (snd (cached_initialize_client_agent env w))
     = Some (Some (agent_for ts))
  /\ logged (effects (snd (cached_initialize_client_agent env w)))
     = logged (effects w)
       ++ "Attempting to discover agent at http://localhost:5000..."
          :: "Successfully discovered the following capabilities:"
          :: map (fun t => "- " +:+ tool_name t) ts
  /\ errors_drawn (effects (snd (cached_initialize_client_agent env w)))
     = errors_drawn (effects w)
  /\ last (effects (snd (cached_initialize_client_agent env w)))
     = Some (StSuccess "Successfully connected to the Supervisor Agent.").
Proof.
  intros Hslot Hp Hts Hb Ha.
  pose proof (init_ready env ts Hp Hts Hb Ha) as Hinit.
  destruct (client_agent_of_miss env w _ _ Hslot Hinit) as [Hc Hw].
  rewrite Hc, Hw. cbn [snd set_cache_resource set_effects cache_resource effects].
  repeat split.
  - rewrite !logged_app, logged_discovered. cbn. rewrite ?app_nil_r. reflexivity.
  - rewrite !errors_drawn_app, errors_drawn_discovered. cbn. rewrite ?app_nil_r. reflexivity.
  - rewrite !app_assoc.
    change [NewBedrockModel client_model_id;
            NewAgent client_system_prompt ts {| model_id := client_model_id |};
            StSuccess "Successfully connected to the Supervisor Agent."]
      with ([NewBedrockModel client_model_id;
             NewAgent client_system_prompt ts {| model_id := client_model_id |}]
            ++ [StSuccess "Successfully connected to the Supervisor Agent."]).
    rewrite !app_assoc. apply last_snoc.
Qed.

Lemma initialization_builds_the_agent_witness :
  client_agent_of Sample.good fresh_process = Returns (Some Sample.the_agent)
  /\ logged (effects (snd (cached_initialize_client_agent Sample.good fresh_process)))
     = logged (effects fresh_process)
       ++ "Attempting to discover agent at http://localhost:5000..."
          :: "Successfully discovered the following capabilities:"
          :: map (fun t => "- " +:+ tool_name t) [Sample.search; Sample.summarize].
Proof.
  pose proof (initialization_builds_the_agent Sample.good fresh_process
                [Sample.search; Sample.summarize]
                eq_refl eq_refl ltac:(discriminate) eq_refl eq_refl) as H.
  exact (conj (proj1 H) (proj1 (proj2 (proj2 H)))).
Defined.
